(** * Helio QuickBooks API app: a shallow embedding of [src/server.js]

    The development follows the single source file of the app.  The class
    [App] keeps an OAuth client, persists its token to a file in the
    temporary directory, proxies calls to the QuickBooks REST API
    ([quickbooks]), walks the customer list page by page
    ([getAllCustomers]) and registers a handful of Express routes.

    JavaScript values are modelled by the inductive [value]; promises by the
    completion they settle with; the mutable [this] and the outside world
    (file, outbound requests, log) by an explicit [world] threaded through a
    small state-and-exception monad. *)

From Stdlib Require Import ZArith List String Ascii Bool Lia.
From Stdlib Require Import Decimal DecimalString.
From Stdlib Require DecimalFacts DecimalPos.
Import ListNotations.

Open Scope string_scope.
Open Scope Z_scope.

(* ================================================================== *)
(** ** JavaScript values and the built-ins the app relies on            *)
(* ================================================================== *)

Module JS.

Set Warnings "-register-all".

(** A JSON-shaped JavaScript value.  [VNum n] is the number [n]: the
    numbers the app inspects ([maxResults], [expires_in], ...) are integers
    that a double holds exactly and that print in plain decimal.  A string
    is a sequence of code units below 256.  [VUndefined] is what a missing
    property reads as. *)
Inductive value : Type :=
| VUndefined
| VNull
| VBool (b : bool)
| VNum (n : Z)
| VStr (s : string)
| VArr (items : list value)
| VObj (fields : list (string * value)).

(** The result of [parseInt]: an integer or [NaN]. *)
Inductive number : Type :=
| Num (z : Z)
| NaN.

(** [a === b] on numbers: [NaN] is equal to nothing. *)
Definition strict_eq (a b : number) : bool :=
  match a, b with
  | Num x, Num y => Z.eqb x y
  | _, _ => false
  end.

(** A thrown [Error] object: its class name, its message and the own
    properties a library may have attached ([error], [authResponse], ...). *)
Record thrown : Type := mkThrown {
  err_name : string;
  err_message : string;
  err_props : list (string * value)
}.

(** How a piece of code ends: normally with a value, or by throwing.  An
    awaited promise is modelled by the completion it settles with. *)
Inductive completion (A : Type) : Type :=
| Return (a : A)
| Throw (e : thrown).
Arguments Return {A} a.
Arguments Throw {A} e.

(** *** Decimal and hexadecimal digits *)

Definition digit_of_ascii (c : ascii) : option (uint -> uint) :=
  match c with
  | "0" => Some D0 | "1" => Some D1 | "2" => Some D2 | "3" => Some D3
  | "4" => Some D4 | "5" => Some D5 | "6" => Some D6 | "7" => Some D7
  | "8" => Some D8 | "9" => Some D9
  | _ => None
  end%char.

(** The longest prefix of decimal digits of [s], and what follows it. *)
Fixpoint read_uint (s : string) : uint * string :=
  match s with
  | String c r =>
      match digit_of_ascii c with
      | Some d => let (u, rest) := read_uint r in (d u, rest)
      | None => (Nil, s)
      end
  | EmptyString => (Nil, EmptyString)
  end.

(** The value of a hexadecimal digit, from its character code. *)
Definition hex_of_ascii (c : ascii) : option Z :=
  let n := Z.of_N (N_of_ascii c) in
  if (48 <=? n) && (n <=? 57) then Some (n - 48)
  else if (97 <=? n) && (n <=? 102) then Some (n - 87)
  else if (65 <=? n) && (n <=? 70) then Some (n - 55)
  else None.

(** Value of the longest prefix of hexadecimal digits, [None] if empty. *)
Fixpoint read_hex (acc : option Z) (s : string) : option Z :=
  match s with
  | String c r =>
      match hex_of_ascii c with
      | Some d =>
          read_hex (Some (16 * match acc with Some a => a | None => 0 end + d)) r
      | None => acc
      end
  | EmptyString => acc
  end.

Definition read_dec (s : string) : option Z :=
  match read_uint s with
  | (Nil, _) => None
  | (u, _) => Some (Z.of_N (N.of_uint u))
  end.

(** *** [String(n)] and [ToString] *)

Definition Number_toString (n : Z) : string :=
  NilZero.string_of_int (Z.to_int n).

Definition number_toString (n : number) : string :=
  match n with
  | Num z => Number_toString z
  | NaN => "NaN"
  end.

(** The abstract operation [ToString], as used by template literals,
    [parseInt] and [new Error(x)].  An array prints its elements joined by
    commas, with [null] and [undefined] elements printed as nothing. *)
Fixpoint ToString (v : value) : string :=
  match v with
  | VUndefined => "undefined"
  | VNull => "null"
  | VBool true => "true"
  | VBool false => "false"
  | VNum n => Number_toString n
  | VStr s => s
  | VArr items =>
      let elt x :=
        match x with
        | VUndefined | VNull => ""
        | _ => ToString x
        end in
      (fix join (l : list value) : string :=
         match l with
         | [] => ""
         | [x] => elt x
         | x :: r => elt x ++ "," ++ join r
         end) items
  | VObj _ => "[object Object]"
  end.

(** *** [parseInt(x)] with no radix argument *)

Definition is_space (c : ascii) : bool :=
  match c with
  | " " | "009" | "010" | "011" | "012" | "013" | "160" => true
  | _ => false
  end%char.

Fixpoint trim_start (s : string) : string :=
  match s with
  | String c r => if is_space c then trim_start r else s
  | EmptyString => EmptyString
  end.

(** Leading white space is skipped, a sign is read, a [0x] prefix selects
    radix 16, and the longest prefix of digits is the value; no digit at all
    gives [NaN].  Whatever follows the digits is ignored. *)
Definition parseInt_string (s : string) : number :=
  let s1 := trim_start s in
  let '(neg, s2) :=
    match s1 with
    | String "-" r => (true, r)
    | String "+" r => (false, r)
    | _ => (false, s1)
    end in
  let mag :=
    match s2 with
    | String "0" (String "x" r) => read_hex None r
    | String "0" (String "X" r) => read_hex None r
    | _ => read_dec s2
    end in
  match mag with
  | Some m => Num (if neg then - m else m)
  | None => NaN
  end.

Definition parseInt (v : value) : number := parseInt_string (ToString v).

(** *** Truthiness, property reads, spread *)

Definition truthy (v : value) : bool :=
  match v with
  | VUndefined | VNull => false
  | VBool b => b
  | VNum n => negb (Z.eqb n 0)
  | VStr s => negb (String.eqb s "")
  | VArr _ | VObj _ => true
  end.

Fixpoint lookup (k : string) (fs : list (string * value)) : value :=
  match fs with
  | [] => VUndefined
  | (k', v) :: r => if String.eqb k k' then v else lookup k r
  end.

Definition TypeError (msg : string) : thrown := mkThrown "TypeError" msg [].

(** [v.k] for the property names the app reads ([QueryResponse],
    [Customer], [maxResults], [fault], [error], [realmId], ...), none of
    which is an index or a built-in of arrays, strings or numbers: reading
    from [undefined] or [null] throws, an object gives its field, anything
    else gives [undefined]. *)
Definition get (v : value) (k : string) : completion value :=
  match v with
  | VUndefined =>
      Throw (TypeError ("Cannot read properties of undefined (reading '" ++ k ++ "')"))
  | VNull =>
      Throw (TypeError ("Cannot read properties of null (reading '" ++ k ++ "')"))
  | VObj fs => Return (lookup k fs)
  | _ => Return VUndefined
  end.

(** The elements an argument spread [...v] produces: those of an array, the
    characters of a string; everything else is not iterable. *)
Definition spread (v : value) : completion (list value) :=
  match v with
  | VArr items => Return items
  | VStr s => Return (map (fun c => VStr (String c EmptyString)) (list_ascii_of_string s))
  | _ => Throw (TypeError (ToString v ++ " is not iterable"))
  end.

(** [new Error(x)]: the message is [ToString x], empty when [x] is
    [undefined]. *)
Definition new_Error (x : value) : thrown :=
  mkThrown "Error" (match x with VUndefined => "" | _ => ToString x end) [].

(** [x || y] *)
Definition or_else (x y : value) : value := if truthy x then x else y.

(** What is left of [s] after its prefix [p]. *)
Fixpoint strip_prefix (p s : string) : option string :=
  match p, s with
  | EmptyString, _ => Some s
  | String a p', String b s' => if Ascii.eqb a b then strip_prefix p' s' else None
  | _, EmptyString => None
  end.

(** What follows the first occurrence of [pat] in [s]. *)
Fixpoint find_after (pat s : string) : option string :=
  match strip_prefix pat s with
  | Some r => Some r
  | None =>
      match s with
      | String _ r => find_after pat r
      | EmptyString => None
      end
  end.

End JS.
Import JS.

(* ================================================================== *)
(** ** The app object and the world around it                           *)
(* ================================================================== *)

(** What [this.oauth] holds: the current token object and the environment
    tag the client was built with. *)
Record oauth_client : Type := mkOAuth {
  token : value;
  environment : string
}.

(** An outbound call handed to [oauth.makeApiCall]. *)
Record api_request : Type := mkRequest {
  req_method : value;
  req_url : string;
  req_headers : value;
  req_body : value
}.

(** What [makeApiCall] settles with: a response (status code and parsed
    body), or a rejection. *)
Record auth_response : Type := mkResponse {
  status : Z;
  json : value
}.

Inductive api_outcome : Type :=
| Resolved (r : auth_response)
| Rejected (e : thrown).

(** The remote API: its answer to the [n]-th outbound call. *)
Definition remote_api : Type := nat -> api_request -> api_outcome.

Inductive log_detail : Type :=
| DetailText (s : string)
| DetailValue (v : value)
| DetailError (e : thrown).

Inductive log_entry : Type :=
| LogSilly (msg : string)
| LogDebug (msg : string)
| LogInfo (tag msg : string)
| LogError (tag : string) (detail : log_detail)
| ConsoleError (msg : string).

Record world : Type := mkWorld {
  app_name : string;               (* this.name *)
  oauth : oauth_client;            (* this.oauth *)
  tmpfile : option string;         (* os.tmpdir()/helio-qbo-token, as the
                                      last write to end left it *)
  sent : list api_request;         (* outbound calls, oldest first *)
  logged : list log_entry;         (* log output, oldest first *)
  writing : list string            (* data of the fs.writeFile calls in flight *)
}.

Definition with_oauth (o : oauth_client) (w : world) : world :=
  mkWorld (app_name w) o (tmpfile w) (sent w) (logged w) (writing w).
Definition with_tmpfile (f : option string) (w : world) : world :=
  mkWorld (app_name w) (oauth w) f (sent w) (logged w) (writing w).
Definition with_sent (l : list api_request) (w : world) : world :=
  mkWorld (app_name w) (oauth w) (tmpfile w) l (logged w) (writing w).
Definition with_logged (l : list log_entry) (w : world) : world :=
  mkWorld (app_name w) (oauth w) (tmpfile w) (sent w) l (writing w).
Definition with_writing (l : list string) (w : world) : world :=
  mkWorld (app_name w) (oauth w) (tmpfile w) (sent w) (logged w) l.

(** *** The monad of app code

    A computation runs in a world and either has no outcome in the model
    ([None]: a loop that has not finished yet, or a value read from outside
    that the type [value] does not hold) or ends with a completion and a new
    world. *)
Definition M (A : Type) : Type := world -> option (completion A * world).

Definition ret {A} (a : A) : M A := fun w => Some (Return a, w).
Definition throw {A} (e : thrown) : M A := fun w => Some (Throw e, w).
Definition bind {A B} (m : M A) (k : A -> M B) : M B :=
  fun w =>
    match m w with
    | Some (Return a, w') => k a w'
    | Some (Throw e, w') => Some (Throw e, w')
    | None => None
    end.
Definition try_catch {A} (m : M A) (h : thrown -> M A) : M A :=
  fun w =>
    match m w with
    | Some (Throw e, w') => h e w'
    | r => r
    end.
Definition lift {A} (c : completion A) : M A := fun w => Some (c, w).
Definition gets {A} (f : world -> A) : M A := fun w => Some (Return (f w), w).
Definition modify (f : world -> world) : M unit := fun w => Some (Return tt, f w).
Definition log (e : log_entry) : M unit :=
  modify (fun w => with_logged (logged w ++ [e])%list w).

Declare Scope app_scope.
Delimit Scope app_scope with app.
Notation "x <- m ;; k" := (bind m (fun x => k))
  (at level 61, m at next level, right associativity) : app_scope.
Notation "m ;;; k" := (bind m (fun _ => k))
  (at level 61, right associativity) : app_scope.
Open Scope app_scope.

(** [await this.oauth.makeApiCall(req)]: the request goes out and the
    remote API answers. *)
Definition makeApiCall (remote : remote_api) (req : api_request) : M auth_response :=
  fun w =>
    let w' := with_sent (sent w ++ [req])%list w in
    match remote (List.length (sent w)) req with
    | Resolved r => Some (Return r, w')
    | Rejected e => Some (Throw e, w')
    end.

(** The base URLs of [OAuthClient.environment] in the intuit-oauth
    library. *)
Definition environment_sandbox : string := "https://sandbox-quickbooks.api.intuit.com/".
Definition environment_production : string := "https://quickbooks.api.intuit.com/".

(** The argument object of [quickbooks]; a field left out is
    [VUndefined]. *)
Record qb_args : Type := mkArgs {
  action : string;
  query : value;
  urlParams : value;
  method : value;
  headers : value;
  body : value
}.

Definition base_url (env : string) : string :=
  if String.eqb env "sandbox" then environment_sandbox else environment_production.

(** The template literal of line 102. *)
Definition api_url (env : string) (companyID : value) (a : qb_args) : string :=
  base_url env ++ "v3/company/" ++ ToString companyID ++ "/" ++ action a
  ++ ToString (or_else (urlParams a) (VStr ""))
  ++ ToString (or_else (query a) (VStr "")).

(** [src/server.js], lines 96-119. *)
Definition quickbooks (remote : remote_api) (a : qb_args) : M value :=
  try_catch
    (tok <- gets (fun w => token (oauth w)) ;;
     companyID <- lift (get tok "realmId") ;;
     (if truthy companyID then ret tt
      else throw (new_Error (VStr "No company ID. Not connected to QB?"))) ;;;
     env <- gets (fun w => environment (oauth w)) ;;
     let apiUrl := api_url env companyID a in
     log (LogDebug ("Contacting QB: " ++ apiUrl)) ;;;
     authResponse <- makeApiCall remote
                       (mkRequest (or_else (method a) (VStr "GET")) apiUrl
                                  (headers a) (body a)) ;;
     fault <- lift (get (json authResponse) "fault") ;;
     if truthy fault then
       fault_error <- lift (get fault "error") ;;
       throw (new_Error fault_error)
     else ret (json authResponse))
    (fun err =>
       let err_error := lookup "error" (err_props err) in
       if truthy err_error then throw (new_Error err_error)
       else throw err).

Definition first_query : string :=
  "?query=SELECT * FROM Customer MAXRESULTS 1000".
Definition next_query (maxResults : number) : string :=
  "?query=SELECT * FROM Customer STARTPOSITION " ++ number_toString maxResults
  ++ " MAXRESULTS 1000".

Definition query_args (q : string) : qb_args :=
  mkArgs "query" (VStr q) VUndefined VUndefined VUndefined VUndefined.

(** [customers.push(...results.QueryResponse.Customer)] *)
Definition push_customers (customers : list value) (results : value) : M (list value) :=
  qr <- lift (get results "QueryResponse") ;;
  cs <- lift (get qr "Customer") ;;
  items <- lift (spread cs) ;;
  ret (customers ++ items)%list.

(** [parseInt(results.QueryResponse.maxResults)] *)
Definition parse_maxResults (results : value) : M number :=
  qr <- lift (get results "QueryResponse") ;;
  mr <- lift (get qr "maxResults") ;;
  ret (parseInt mr).

(** The [while (maxResults === 1000)] loop of lines 130-134; [fuel] bounds
    the number of iterations that are run. *)
Fixpoint customers_loop (remote : remote_api) (fuel : nat)
    (customers : list value) (maxResults : number) : M (list value) :=
  if strict_eq maxResults (Num 1000) then
    match fuel with
    | O => fun _ => None
    | S fuel' =>
        results <- quickbooks remote (query_args (next_query maxResults)) ;;
        customers' <- push_customers customers results ;;
        maxResults' <- parse_maxResults results ;;
        customers_loop remote fuel' customers' maxResults'
    end
  else ret customers.

(** [src/server.js], lines 121-138. *)
Definition getAllCustomers (remote : remote_api) (fuel : nat) : M (list value) :=
  let customers := [] in
  results <- quickbooks remote (query_args first_query) ;;
  customers <- push_customers customers results ;;
  initialMaxResults <- parse_maxResults results ;;
  if strict_eq initialMaxResults (Num 1000) then
    let maxResults := initialMaxResults in
    customers_loop remote fuel customers maxResults
  else ret customers.

(* ================================================================== *)
(** ** [JSON.stringify] and [JSON.parse]                                *)
(* ================================================================== *)

Module JSON.

Definition dquote : ascii := "034"%char.
Definition backslash : ascii := "092"%char.

Definition hex_digit (n : N) : ascii :=
  match n with
  | 0 => "0" | 1 => "1" | 2 => "2" | 3 => "3" | 4 => "4" | 5 => "5"
  | 6 => "6" | 7 => "7" | 8 => "8" | 9 => "9" | 10 => "a" | 11 => "b"
  | 12 => "c" | 13 => "d" | 14 => "e" | _ => "f"
  end%N%char.

(** One character of a quoted JSON string: the quote, the backslash and
    the control characters are escaped, all else is copied. *)
Definition escape_char (c : ascii) : string :=
  match c with
  | "008"%char => "\b"
  | "009"%char => "\t"
  | "010"%char => "\n"
  | "012"%char => "\f"
  | "013"%char => "\r"
  | "034"%char => String backslash (String dquote EmptyString)
  | "092"%char => String backslash (String backslash EmptyString)
  | _ =>
      if (N_of_ascii c <? 32)%N then
        "\u00" ++ String (hex_digit (N_of_ascii c / 16))
                  (String (hex_digit (N_of_ascii c mod 16)) EmptyString)
      else String c EmptyString
  end.

Fixpoint escape (s : string) : string :=
  match s with
  | EmptyString => EmptyString
  | String c r => escape_char c ++ escape r
  end.

Definition quote (s : string) : string :=
  String dquote (escape s ++ String dquote EmptyString).

Section Printer.
Variable str : value -> option string.

(** The elements of an array, separated by commas; an element without a
    text prints as [null]. *)
Fixpoint stringify_elements (l : list value) : string :=
  match l with
  | [] => ""
  | [x] => match str x with Some t => t | None => "null" end
  | x :: r => match str x with Some t => t | None => "null" end
              ++ "," ++ stringify_elements r
  end.

(** The members of an object, separated by commas; a member whose value
    has no text is left out. *)
Fixpoint stringify_members (first : bool) (l : list (string * value)) : string :=
  match l with
  | [] => ""
  | (k, x) :: r =>
      match str x with
      | None => stringify_members first r
      | Some t =>
          (if first then "" else ",") ++ quote k ++ ":" ++ t
          ++ stringify_members false r
      end
  end.
End Printer.

(** [JSON.stringify(v)]; [None] is the [undefined] it gives for
    [undefined]. *)
Fixpoint stringify (v : value) : option string :=
  match v with
  | VUndefined => None
  | VNull => Some "null"
  | VBool true => Some "true"
  | VBool false => Some "false"
  | VNum n => Some (Number_toString n)
  | VStr s => Some (quote s)
  | VArr items => Some ("[" ++ stringify_elements stringify items ++ "]")
  | VObj fields => Some ("{" ++ stringify_members stringify true fields ++ "}")
  end.

(** *** Parsing *)

Definition is_ws (c : ascii) : bool :=
  match c with
  | " " | "009" | "010" | "013" => true
  | _ => false
  end%char.

Fixpoint skip_ws (s : string) : string :=
  match s with
  | String c r => if is_ws c then skip_ws r else s
  | EmptyString => EmptyString
  end.

Definition simple_escape (e : ascii) : option ascii :=
  match e with
  | "034" => Some "034" | "092" => Some "092" | "/" => Some "/"
  | "b" => Some "008" | "f" => Some "012" | "n" => Some "010"
  | "r" => Some "013" | "t" => Some "009"
  | _ => None
  end%char.

(** The character a [\uXXXX] escape stands for; code units above 255 are
    outside the model. *)
Definition unicode_escape (h1 h2 h3 h4 : ascii) : option ascii :=
  match hex_of_ascii h1, hex_of_ascii h2, hex_of_ascii h3, hex_of_ascii h4 with
  | Some a, Some b, Some c, Some d =>
      let code := ((a * 16 + b) * 16 + c) * 16 + d in
      if code <? 256 then Some (ascii_of_N (Z.to_N code)) else None
  | _, _, _, _ => None
  end.

Definition cons_char (c : ascii) (r : option (string * string)) : option (string * string) :=
  match r with
  | Some (t, rest) => Some (String c t, rest)
  | None => None
  end.

(** The characters of a string literal, read after its opening quote, up to
    and including the closing quote. *)
Fixpoint parse_chars (s : string) : option (string * string) :=
  match s with
  | EmptyString => None
  | String c r =>
      if Ascii.eqb c dquote then Some (EmptyString, r)
      else if Ascii.eqb c backslash then
        match r with
        | String e r2 =>
            if Ascii.eqb e "u" then
              match r2 with
              | String h1 (String h2 (String h3 (String h4 r3))) =>
                  match unicode_escape h1 h2 h3 h4 with
                  | Some ch => cons_char ch (parse_chars r3)
                  | None => None
                  end
              | _ => None
              end
            else
              match simple_escape e with
              | Some ch => cons_char ch (parse_chars r2)
              | None => None
              end
        | EmptyString => None
        end
      else if (N_of_ascii c <? 32)%N then None
      else cons_char c (parse_chars r)
  end.

(** Digits without a leading zero.  A number with a fraction or an
    exponent is not read here: the grammar below recognises it, and
    [parse] has no value for it. *)
Definition parse_unsigned (s : string) : option (Z * string) :=
  let '(u, rest) := read_uint s in
  let canonical :=
    match u with
    | Nil => false
    | D0 Nil => true
    | D0 _ => false
    | _ => true
    end in
  let plain :=
    match rest with
    | String "." _ | String "e" _ | String "E" _ => false
    | _ => true
    end in
  if canonical && plain then Some (Z.of_N (N.of_uint u), rest) else None.

(** A number literal: an optional minus sign, then the digits. *)
Definition parse_number (s : string) : option (Z * string) :=
  match s with
  | String "-" r =>
      match parse_unsigned r with
      | Some (m, rest) => Some (- m, rest)
      | None => None
      end
  | _ => parse_unsigned s
  end.

(** Defining a property: an existing key keeps its place and takes the new
    value, a new key goes last. *)
Fixpoint obj_set (k : string) (v : value) (fs : list (string * value)) : list (string * value) :=
  match fs with
  | [] => [(k, v)]
  | (k', v') :: r => if String.eqb k k' then (k, v) :: r else (k', v') :: obj_set k v r
  end.

Section Parser.
Variable pv : string -> option (value * string).

(** The rest of an array, read after one of its elements. *)
Fixpoint parse_elements (fuel : nat) (acc : list value) (s : string)
  : option (value * string) :=
  match fuel with
  | O => None
  | S f =>
      match skip_ws s with
      | String c r =>
          if Ascii.eqb c "]" then Some (VArr acc, r)
          else if Ascii.eqb c "," then
            match pv r with
            | Some (v, r') => parse_elements f (acc ++ [v])%list r'
            | None => None
            end
          else None
      | EmptyString => None
      end
  end.

Definition parse_member (s : string) : option (string * value * string) :=
  match skip_ws s with
  | String c r =>
      if Ascii.eqb c dquote then
        match parse_chars r with
        | Some (k, r1) =>
            match skip_ws r1 with
            | String c1 r2 =>
                if Ascii.eqb c1 ":" then
                  match pv r2 with
                  | Some (v, r3) => Some (k, v, r3)
                  | None => None
                  end
                else None
            | EmptyString => None
            end
        | None => None
        end
      else None
  | EmptyString => None
  end.

(** The rest of an object, read after one of its members. *)
Fixpoint parse_members (fuel : nat) (acc : list (string * value)) (s : string)
  : option (value * string) :=
  match fuel with
  | O => None
  | S f =>
      match skip_ws s with
      | String c r =>
          if Ascii.eqb c "}" then Some (VObj acc, r)
          else if Ascii.eqb c "," then
            match parse_member r with
            | Some (k, v, r') => parse_members f (obj_set k v acc) r'
            | None => None
            end
          else None
      | EmptyString => None
      end
  end.
End Parser.

Fixpoint parse_value (fuel : nat) (s : string) : option (value * string) :=
  match fuel with
  | O => None
  | S f =>
      match skip_ws s with
      | EmptyString => None
      | String c r as t =>
          if Ascii.eqb c dquote then
            match parse_chars r with
            | Some (str, rest) => Some (VStr str, rest)
            | None => None
            end
          else if Ascii.eqb c "[" then
            match skip_ws r with
            | String "]" r' => Some (VArr [], r')
            | _ =>
                match parse_value f r with
                | Some (v, r') => parse_elements (parse_value f) f [v] r'
                | None => None
                end
            end
          else if Ascii.eqb c "{" then
            match skip_ws r with
            | String "}" r' => Some (VObj [], r')
            | _ =>
                match parse_member (parse_value f) r with
                | Some (k, v, r') => parse_members (parse_value f) f [(k, v)] r'
                | None => None
                end
            end
          else
            match strip_prefix "null" t, strip_prefix "true" t, strip_prefix "false" t with
            | Some rest, _, _ => Some (VNull, rest)
            | _, Some rest, _ => Some (VBool true, rest)
            | _, _, Some rest => Some (VBool false, rest)
            | _, _, _ =>
                match parse_number t with
                | Some (n, rest) => Some (VNum n, rest)
                | None => None
                end
            end
      end
  end.

(** The value of a text that the functions above read from end to end. *)
Definition read_value (text : string) : option value :=
  match parse_value (S (String.length text)) text with
  | Some (v, rest) =>
      match skip_ws rest with
      | EmptyString => Some v
      | _ => None
      end
  | None => None
  end.

(** *** The grammar alone

    The JSON grammar has texts whose value the type [value] does not hold:
    a number may carry a fraction and an exponent, and a [\u] escape may
    name any code unit.  The functions below follow the grammar without
    building a value; each gives what is left of the text after the item
    it reads. *)

Fixpoint skip_digits (s : string) : string :=
  match s with
  | String c r =>
      match digit_of_ascii c with
      | Some _ => skip_digits r
      | None => s
      end
  | EmptyString => EmptyString
  end.

(** One digit or more. *)
Definition scan_digits (s : string) : option string :=
  match s with
  | String c r =>
      match digit_of_ascii c with
      | Some _ => Some (skip_digits r)
      | None => None
      end
  | EmptyString => None
  end.

(** A number: an optional minus sign; a zero, or digits that do not start
    with a zero; an optional fraction; an optional exponent. *)
Definition scan_number (s : string) : option string :=
  let unsigned := match s with String "-" r => r | _ => s end in
  let after_int :=
    match unsigned with
    | String "0" r => Some r
    | _ => scan_digits unsigned
    end in
  let after_frac :=
    match after_int with
    | Some (String "." r) => scan_digits r
    | other => other
    end in
  match after_frac with
  | Some (String "e" r) | Some (String "E" r) =>
      scan_digits match r with
                  | String "+" r' | String "-" r' => r'
                  | _ => r
                  end
  | other => other
  end.

Definition is_hex (c : ascii) : bool :=
  match hex_of_ascii c with
  | Some _ => true
  | None => false
  end.

(** The rest of a string literal, after its opening quote. *)
Fixpoint scan_chars (s : string) : option string :=
  match s with
  | EmptyString => None
  | String c r =>
      if Ascii.eqb c dquote then Some r
      else if Ascii.eqb c backslash then
        match r with
        | String e r2 =>
            if Ascii.eqb e "u" then
              match r2 with
              | String h1 (String h2 (String h3 (String h4 r3))) =>
                  if is_hex h1 && is_hex h2 && is_hex h3 && is_hex h4
                  then scan_chars r3 else None
              | _ => None
              end
            else
              match simple_escape e with
              | Some _ => scan_chars r2
              | None => None
              end
        | EmptyString => None
        end
      else if (N_of_ascii c <? 32)%N then None
      else scan_chars r
  end.

Section Scanner.
Variable sv : string -> option string.

Fixpoint scan_elements (fuel : nat) (s : string) : option string :=
  match fuel with
  | O => None
  | S f =>
      match skip_ws s with
      | String c r =>
          if Ascii.eqb c "]" then Some r
          else if Ascii.eqb c "," then
            match sv r with
            | Some r' => scan_elements f r'
            | None => None
            end
          else None
      | EmptyString => None
      end
  end.

Definition scan_member (s : string) : option string :=
  match skip_ws s with
  | String c r =>
      if Ascii.eqb c dquote then
        match scan_chars r with
        | Some r1 =>
            match skip_ws r1 with
            | String c1 r2 => if Ascii.eqb c1 ":" then sv r2 else None
            | EmptyString => None
            end
        | None => None
        end
      else None
  | EmptyString => None
  end.

Fixpoint scan_members (fuel : nat) (s : string) : option string :=
  match fuel with
  | O => None
  | S f =>
      match skip_ws s with
      | String c r =>
          if Ascii.eqb c "}" then Some r
          else if Ascii.eqb c "," then
            match scan_member r with
            | Some r' => scan_members f r'
            | None => None
            end
          else None
      | EmptyString => None
      end
  end.
End Scanner.

Fixpoint scan_value (fuel : nat) (s : string) : option string :=
  match fuel with
  | O => None
  | S f =>
      match skip_ws s with
      | EmptyString => None
      | String c r as t =>
          if Ascii.eqb c dquote then scan_chars r
          else if Ascii.eqb c "[" then
            match skip_ws r with
            | String "]" r' => Some r'
            | _ =>
                match scan_value f r with
                | Some r' => scan_elements (scan_value f) f r'
                | None => None
                end
            end
          else if Ascii.eqb c "{" then
            match skip_ws r with
            | String "}" r' => Some r'
            | _ =>
                match scan_member (scan_value f) r with
                | Some r' => scan_members (scan_value f) f r'
                | None => None
                end
            end
          else
            match strip_prefix "null" t, strip_prefix "true" t, strip_prefix "false" t with
            | Some rest, _, _ => Some rest
            | _, Some rest, _ => Some rest
            | _, _, Some rest => Some rest
            | _, _, _ => scan_number t
            end
      end
  end.

(** The text is one JSON value, with nothing but white space around it. *)
Definition well_formed (text : string) : bool :=
  match scan_value (S (String.length text)) text with
  | Some rest =>
      match skip_ws rest with
      | EmptyString => true
      | _ => false
      end
  | None => false
  end.

Definition SyntaxError (msg : string) : thrown := mkThrown "SyntaxError" msg [].

(** [JSON.parse(text)]: the value of the text; a [SyntaxError] for a text
    outside the grammar; and [None], no outcome in the model, for a text of
    the grammar whose value the model does not hold. *)
Definition parse (text : string) : option (completion value) :=
  match read_value text with
  | Some v => Some (Return v)
  | None =>
      if well_formed text then None
      else Some (Throw (SyntaxError "Unexpected token in JSON"))
  end.

End JSON.

(* ================================================================== *)
(** ** The credential and its persistence                               *)
(* ================================================================== *)

(** Modelled from the spec: the shape of a fully present credential, which
    the source takes from the OAuth library ("flat object with access
    token, refresh token, realm/tenant id, expiry fields as produced by the
    OAuth exchange").  The field names are those of the library's token. *)
Record Credential : Type := mkCredential {
  realmId : string;
  token_type : string;
  access_token : string;
  refresh_token : string;
  expires_in : Z;
  x_refresh_token_expires_in : Z;
  id_token : string;
  latency : Z;
  createdAt : Z
}.

(** The token object of a credential. *)
Definition credential_value (c : Credential) : value :=
  VObj [("realmId", VStr (realmId c));
        ("token_type", VStr (token_type c));
        ("access_token", VStr (access_token c));
        ("refresh_token", VStr (refresh_token c));
        ("expires_in", VNum (expires_in c));
        ("x_refresh_token_expires_in", VNum (x_refresh_token_expires_in c));
        ("id_token", VStr (id_token c));
        ("latency", VNum (latency c));
        ("createdAt", VNum (createdAt c))].

(** [this.oauth.setToken(params)] makes [this.token = new Token(params)].
    The [Token] constructor of the intuit-oauth library (which is not part
    of the repository) reads each of its nine fields as
    [params.x || default]: the texts default to the empty string, the two
    lifetimes to 0, [latency] to [60 * 1000] and [createdAt] to
    [Date.now()], which is [now] here.  What else [params] holds is
    dropped, and a falsy [params] counts as an empty object. *)
Definition oauth_setToken (now : Z) (params : value) : value :=
  let params := or_else params (VObj []) in
  let field (k : string) (default : value) : string * value :=
    (k, or_else (match get params k with
                 | Return x => x
                 | Throw _ => VUndefined
                 end) default) in
  VObj [field "realmId" (VStr "");
        field "token_type" (VStr "");
        field "access_token" (VStr "");
        field "refresh_token" (VStr "");
        field "expires_in" (VNum 0);
        field "x_refresh_token_expires_in" (VNum 0);
        field "id_token" (VStr "");
        field "latency" (VNum (60 * 1000));
        field "createdAt" (VNum now)].

(** [err.toString()] of an [Error]: the name alone, the message alone, or
    both, whichever of the two is not empty. *)
Definition Error_toString (e : thrown) : string :=
  if String.eqb (err_name e) "" then err_message e
  else if String.eqb (err_message e) "" then err_name e
  else err_name e ++ ": " ++ err_message e.

(** [src/server.js], lines 82-87.  The client takes the token and the write
    of its text is started; the call does not wait for the write, whose
    callback runs later ([write_ends]).  [now] is what [Date.now()] reads
    during the call.  [fs.writeFile] refuses the [undefined] that
    [JSON.stringify(undefined)] is. *)
Definition setAccessToken (now : Z) (tok : value) : M unit :=
  modify (fun w => with_oauth (mkOAuth (oauth_setToken now tok) (environment (oauth w))) w) ;;;
  match JSON.stringify tok with
  | None => throw (TypeError "The data argument must be of type string")
  | Some text => modify (fun w => with_writing (writing w ++ [text])%list w)
  end.

(** How an [fs.writeFile] ends: the file holds the data; or the callback
    receives an error and the file holds whatever the failed write left
    behind; or, another write to the same file having run at the same
    time, the callback receives no error and the file holds some mix of the
    two. *)
Inductive write_outcome : Type :=
| WriteDone
| WriteFailed (err : thrown) (left_behind : option string)
| WriteMixed (content : option string).

(** The [i]-th of the writes in flight ends, and the callback of lines
    84-86 runs: it prints the error, if there is one.  The writes need not
    end in the order they were started in. *)
Definition write_ends (i : nat) (wo : write_outcome) (w : world) : world :=
  match nth_error (writing w) i with
  | None => w
  | Some text =>
      let w1 := with_writing (firstn i (writing w) ++ skipn (S i) (writing w))%list w in
      match wo with
      | WriteDone => with_tmpfile (Some text) w1
      | WriteFailed err left_behind =>
          with_logged (logged w1 ++ [ConsoleError (Error_toString err)])%list
            (with_tmpfile left_behind w1)
      | WriteMixed content => with_tmpfile content w1
      end
  end.

(** [fs.readFileSync(path).toString()] *)
Definition readFileSync : M string :=
  fun w =>
    match tmpfile w with
    | Some text => Some (Return text, w)
    | None => Some (Throw (mkThrown "Error" "ENOENT: no such file or directory" []), w)
    end.

(** A completion that comes from outside, if the model has one for it. *)
Definition lift_partial {A} (c : option (completion A)) : M A :=
  fun w =>
    match c with
    | Some r => Some (r, w)
    | None => None
    end.

(** Line 68: [JSON.parse(fs.readFileSync(...).toString())]. *)
Definition read_stored_token : M value :=
  text <- readFileSync ;;
  lift_partial (JSON.parse text).

(** How [this.oauth.refresh()] settles. *)
Inductive refresh_outcome : Type :=
| Refreshed (tok : value)
| RefreshRejected (e : thrown).

Definition oauth_refresh (ro : refresh_outcome) : M value :=
  match ro with
  | Refreshed tok => ret tok
  | RefreshRejected e => throw e
  end.

(** [src/server.js], lines 89-94. *)
Definition refreshToken (now : Z) (ro : refresh_outcome) : M value :=
  authResponse_token <- oauth_refresh ro ;;
  setAccessToken now authResponse_token ;;;
  name <- gets app_name ;;
  log (LogInfo name "Successfully refreshed access token!") ;;;
  ret authResponse_token.

(** A call of an async function whose promise is dropped: the world after
    it, and the rejection nobody handles, if it rejected. *)
Record detached : Type := mkDetached {
  world_after : world;
  unhandled_rejection : option thrown
}.

(** [this.refreshToken()] as a statement, lines 71 and 78: the promise is
    neither awaited nor given a handler. *)
Definition spawn_refreshToken (now : Z) (ro : refresh_outcome) (w : world) : detached :=
  match refreshToken now ro w with
  | Some (Return _, w') => mkDetached w' None
  | Some (Throw e, w') => mkDetached w' (Some e)
  | None => mkDetached w None
  end.

(** Lines 66-74 of the constructor, up to the detached refresh of line 71
    (a [spawn_refreshToken] of its own). *)
Definition load_stored_token (now : Z) : M unit :=
  try_catch
    (data <- read_stored_token ;;
     log (LogSilly "Read locally stored QBO access token") ;;;
     setAccessToken now data)
    (fun _ =>
       log (LogSilly "Did not find a locally stored QBO access token")).

(** *** The host process and the 30-minute timer *)

(** What the runtime does with a rejection nobody handles: print a warning
    and go on, or raise it as an uncaught exception, which ends the
    process (the default of current Node.js releases). *)
Inductive rejection_mode : Type :=
| WarnMode
| ThrowMode.

Inductive process : Type :=
| Running (w : world) (warnings : list thrown)
| Exited (code : Z) (w : world).

(** The period of the timer, in milliseconds. *)
Definition interval_ms : Z := 1800000.

(** One firing of the [setInterval] callback of lines 77-79. *)
Definition timer_tick (mode : rejection_mode) (now : Z) (ro : refresh_outcome)
    (p : process) : process :=
  match p with
  | Exited _ _ => p
  | Running w warnings =>
      let d := spawn_refreshToken now ro w in
      match unhandled_rejection d, mode with
      | None, _ => Running (world_after d) warnings
      | Some e, WarnMode => Running (world_after d) (warnings ++ [e])%list
      | Some e, ThrowMode => Exited 1 (world_after d)
      end
  end.

(* ================================================================== *)
(** ** Route handlers                                                   *)
(* ================================================================== *)

Inductive res_body : Type :=
| SendText (s : string)
| SendJson (v : value)
| SendError (e : thrown)
| Redirect (url : string).

Record response : Type := mkRes {
  res_status : Z;
  res_payload : res_body
}.

(** [src/server.js], lines 142-147. *)
Definition qbStatus : M response :=
  ret (mkRes 200 (SendJson (VObj [("appAuthorized", VBool false);
                                  ("oauthToken", VNull)]))).

(** Lines 169-171; no route is registered for it. *)
Definition getToken : M response :=
  tok <- gets (fun w => token (oauth w)) ;;
  ret (mkRes 200 (SendJson tok)).

(** Lines 173-181. *)
Definition doRefreshToken (now : Z) (ro : refresh_outcome) : M response :=
  try_catch
    (tok <- refreshToken now ro ;;
     ret (mkRes 200 (SendJson tok)))
    (fun err =>
       name <- gets app_name ;;
       log (LogError name (DetailText (Error_toString err))) ;;;
       ret (mkRes 401 (SendJson (VObj [("error", VStr (Error_toString err))])))).

(** Lines 201-209.  [err.Fault ? err.Fault : err]. *)
Definition getCustomers (remote : remote_api) (fuel : nat) : M response :=
  try_catch
    (results <- getAllCustomers remote fuel ;;
     ret (mkRes 200 (SendJson (VArr results))))
    (fun err =>
       let err_Fault := lookup "Fault" (err_props err) in
       log (LogError "Helio Quickbooks"
              (if truthy err_Fault then DetailValue err_Fault else DetailError err)) ;;;
       ret (mkRes 400 (if truthy err_Fault then SendJson err_Fault else SendError err))).

(* ================================================================== *)
(** ** The router and the identity-token guard                          *)
(* ================================================================== *)

Record request : Type := mkReq {
  http_method : string;
  path : string;
  authorization : option string;   (* req.headers.authorization *)
  user : value                      (* req.user *)
}.

(** [s.split(' ')] *)
Fixpoint split_space (s : string) : list string :=
  match s with
  | EmptyString => [EmptyString]
  | String c r =>
      if Ascii.eqb c " " then EmptyString :: split_space r
      else
        match split_space r with
        | h :: t => String c h :: t
        | [] => [String c EmptyString]
        end
  end.

(** Line 40: the second space-separated word of the header, [None] for
    [null] or [undefined]. *)
Definition header_token (req : request) : option string :=
  match authorization req with
  | Some h => if String.eqb h "" then None else nth_error (split_space h) 1
  | None => None
  end.

Inductive guard_result : Type :=
| Responded (r : response)
| NextError (e : thrown)
| Next (req : request).

(** [jwt.verify(token, secret, callback)]: the error or the payload the
    callback receives. *)
Definition jwt_verify : Type := string -> completion value.

(** [src/server.js], lines 39-48. *)
Definition decodeUserToken (verify : jwt_verify) (req : request) : guard_result :=
  match header_token req with
  | None | Some EmptyString => Responded (mkRes 401 (SendText "Unauthorized"))
  | Some tok =>
      match verify tok with
      | Throw err => NextError err
      | Return payload =>
          match get payload "data" with
          | Throw e => NextError e
          | Return data =>
              match get data "uuid" with
              | Throw e => NextError e
              | Return uuid =>
                  if truthy uuid
                  then Next (mkReq (http_method req) (path req) (authorization req) data)
                  else Next req
              end
          end
      end
  end.

Inductive middleware : Type :=
| DecodeUserToken.

Inductive handler : Type :=
| QbStatus
| Authorize
| IntuitCallback
| DoRefreshToken
| IsTokenValid
| GetCompanyInfo
| GetCustomers
| GenerateFakeCustomers.

Record route : Type := mkRoute {
  route_path : string;
  route_guards : list middleware;
  route_handler : handler
}.

(** The [this.router.get] registrations of lines 56-64, in order. *)
Definition routes : list route :=
  [ mkRoute "/" [DecodeUserToken] QbStatus;
    mkRoute "/authorize" [DecodeUserToken] Authorize;
    mkRoute "/callback" [] IntuitCallback;
    mkRoute "/token/refresh" [DecodeUserToken] DoRefreshToken;
    mkRoute "/token/valid" [DecodeUserToken] IsTokenValid;
    mkRoute "/company" [DecodeUserToken] GetCompanyInfo;
    mkRoute "/customers" [DecodeUserToken] GetCustomers;
    mkRoute "/customers/generate" [DecodeUserToken] GenerateFakeCustomers ].

Definition run_middleware (verify : jwt_verify) (m : middleware) (req : request) : guard_result :=
  match m with
  | DecodeUserToken => decodeUserToken verify req
  end.

(** What the router does with a request: no route, a reply or an error
    from a guard, or the route's handler called with the request the guards
    passed on. *)
Inductive dispatched : Type :=
| NoRoute
| Replied (r : response)
| Failed (e : thrown)
| Invoked (h : handler) (req : request).

Fixpoint run_chain (verify : jwt_verify) (ms : list middleware) (h : handler)
    (req : request) : dispatched :=
  match ms with
  | [] => Invoked h req
  | m :: rest =>
      match run_middleware verify m req with
      | Responded r => Replied r
      | NextError e => Failed e
      | Next req' => run_chain verify rest h req'
      end
  end.

Definition dispatch (verify : jwt_verify) (req : request) : dispatched :=
  if String.eqb (http_method req) "GET" then
    match find (fun r => String.eqb (route_path r) (path req)) routes with
    | Some r => run_chain verify (route_guards r) (route_handler r) req
    | None => NoRoute
    end
  else NoRoute.

(* ================================================================== *)
(** ** Vocabulary of the statements                                     *)
(* ================================================================== *)

(** [v.k] where the read cannot throw; [undefined] where it would. *)
Definition prop (v : value) (k : string) : value :=
  match get v k with
  | Return x => x
  | Throw _ => VUndefined
  end.

(** The app is connected: the client's token has a truthy [realmId]. *)
Definition connected (w : world) : bool :=
  truthy (prop (token (oauth w)) "realmId").

(** The request [quickbooks] sends for the arguments [a] in world [w]. *)
Definition request_for (w : world) (a : qb_args) : api_request :=
  mkRequest (or_else (method a) (VStr "GET"))
            (api_url (environment (oauth w)) (prop (token (oauth w)) "realmId") a)
            (headers a) (body a).

Definition query_request (w : world) (q : string) : api_request :=
  request_for w (query_args q).

(** The world after the requests [reqs] went out, each one logged. *)
Definition after_calls (w : world) (reqs : list api_request) : world :=
  with_sent (sent w ++ reqs)%list
    (with_logged
       (logged w ++ map (fun r => LogDebug ("Contacting QB: " ++ req_url r)) reqs)%list w).

(** The response has a parsed body that carries a fault marker: its
    [fault] property is truthy. *)
Definition has_fault (r : auth_response) : bool := truthy (prop (json r) "fault").

(** What [getAllCustomers] reads off an answer that it gets through
    without a throw: the records of [QueryResponse.Customer] and the raw
    [QueryResponse.maxResults]. *)
Definition read_page (o : api_outcome) : option (list value * value) :=
  match o with
  | Rejected _ => None
  | Resolved r =>
      match get (json r) "fault" with
      | Return f =>
          if truthy f then None
          else
            match get (json r) "QueryResponse" with
            | Return qr =>
                match get qr "Customer", get qr "maxResults" with
                | Return cs, Return mr =>
                    match spread cs with
                    | Return items => Some (items, mr)
                    | Throw _ => None
                    end
                | _, _ => None
                end
            | Throw _ => None
            end
      | Throw _ => None
      end
  end.

(** The answer of the remote API to the query [q], sent as the [k]-th
    call from world [w] on, is a page with the records [items] and the
    [maxResults] field [mr]. *)
Definition answers (remote : remote_api) (w : world) (q : string) (k : nat)
    (items : list value) (mr : value) : Prop :=
  read_page (remote (List.length (sent w) + k)%nat (query_request w q)) = Some (items, mr).

(** The query of the [k]-th request of a run. *)
Definition page_query (k : nat) : string :=
  match k with
  | O => first_query
  | S _ => next_query (Num 1000)
  end.

(** The [k]-th page of a run started in world [w] has the records [items]
    and the [maxResults] field [mr]. *)
Definition serves (remote : remote_api) (w : world) (k : nat)
    (items : list value) (mr : value) : Prop :=
  answers remote w (page_query k) k items mr.

(** The records of pages [0 .. k], in request order. *)
Definition records_upto (items : nat -> list value) (k : nat) : list value :=
  List.concat (map items (seq 0 (S k))).

(** The start offset a query asks for: the number after [STARTPOSITION],
    [0] for a query without that clause. *)
Definition start_offset (q : string) : Z :=
  match find_after "STARTPOSITION " q with
  | Some r =>
      match parseInt_string r with
      | Num z => z
      | NaN => 0
      end
  | None => 0
  end.

(** The requests of a run that reads [k + 1] pages. *)
Definition requests_of_run (w : world) (k : nat) : list api_request :=
  map (fun i => query_request w (page_query i)) (seq 0 (S k)).

(** Strings, numbers, booleans and [null]. *)
Definition scalar (v : value) : bool :=
  match v with
  | VNull | VBool _ | VNum _ | VStr _ => true
  | _ => false
  end.

(** A flat object: distinct keys and scalar values. *)
Definition flat (fields : list (string * value)) : Prop :=
  NoDup (map fst fields) /\ Forall (fun kv => scalar (snd kv) = true) fields.

(** The characters that end a member of an object. *)
Definition delimiter (c : ascii) : bool :=
  (Ascii.eqb c "," || Ascii.eqb c "}")%bool.

(** The characters a number literal can start with. *)
Definition number_start (c : ascii) : bool :=
  match digit_of_ascii c with
  | Some _ => true
  | None => Ascii.eqb c "-"
  end.

(** No leading zero, at least one digit. *)
Definition canonical (u : uint) : bool :=
  match u with
  | Nil => false
  | D0 Nil => true
  | D0 _ => false
  | _ => true
  end.

(** Each number is smaller than the next. *)
Fixpoint strictly_increasing (l : list Z) : bool :=
  match l with
  | x :: (y :: _) as r => (x <? y) && strictly_increasing r
  | _ => true
  end.

(** The start offsets of the requests a world has seen go out. *)
Definition offsets_sent (w : world) : list Z :=
  map (fun r => start_offset (req_url r)) (sent w).

(** The run ends, by returning or by throwing. *)
Definition terminates (remote : remote_api) (w : world) : Prop :=
  exists fuel, getAllCustomers remote fuel w <> None.

(** A page is short when it holds fewer than 1000 records, or reports
    fewer than 1000 in [maxResults]. *)
Definition short_page (items : list value) (mr : value) : Prop :=
  (List.length items < 1000)%nat \/ exists z, parseInt mr = Num z /\ z < 1000.

(** The request carries no token: no [authorization] header, or a header
    without a second word. *)
Definition no_token (req : request) : bool :=
  match header_token req with
  | None | Some EmptyString => true
  | Some _ => false
  end.

(** The request has a bearer authorization header: the word [Bearer], a
    space and a token. *)
Definition bearer_header (req : request) : bool :=
  match authorization req with
  | Some h =>
      match strip_prefix "Bearer " h with
      | Some t => negb (String.eqb t "")
      | None => false
      end
  | None => false
  end.

(** A text that reads as a number from end to end: an optional sign and
    decimal digits. *)
Definition numeric_text (s : string) : bool :=
  match read_uint match s with
                  | String "-" r | String "+" r => r
                  | _ => s
                  end with
  | (Nil, _) => false
  | (_, EmptyString) => true
  | (_, String _ _) => false
  end.

(** The field is there and is numeric: a number, or a text that reads as
    one. *)
Definition numeric (v : value) : bool :=
  match v with
  | VNum _ => true
  | VStr s => numeric_text s
  | _ => false
  end.

(** A text made of decimal digits only, as the realm ids of QuickBooks
    are. *)
Fixpoint all_digits (s : string) : bool :=
  match s with
  | EmptyString => true
  | String c r =>
      match digit_of_ascii c with
      | Some _ => all_digits r
      | None => false
      end
  end.

(** The realm id the client's token names, as it goes into a URL. *)
Definition realm_of (w : world) : string :=
  ToString (prop (token (oauth w)) "realmId").

(** A new process on the same machine, the writes of the old one having
    ended: only the file is left.  The client of the new process has been
    given no token; as in [new_App], its token is the empty object. *)
Definition restart (w : world) : world :=
  mkWorld (app_name w) (mkOAuth (VObj []) (environment (oauth w))) (tmpfile w) [] [] [].

(* ================================================================== *)
(** ** Sample data                                                      *)
(* ================================================================== *)

Definition sample_credential : Credential :=
  mkCredential "4620816365199133610" "bearer" "eyJlbmMiOiJBMTI4Q0JDLUhTMjU2In0.access"
    "AB11730384727refresh" 3600 8726400 "" 60000 1730384727000.

(** An app that holds [sample_credential]. *)
Definition sample_world : world :=
  mkWorld "Helio Quickbooks API" (mkOAuth (credential_value sample_credential) "sandbox")
    None [] [] [].

Definition sample_customer : value :=
  VObj [("Id", VStr "1"); ("DisplayName", VStr "Amy's Bird Sanctuary"); ("Active", VBool true)].

(** The body of a query response with the given records and [maxResults]. *)
Definition page_body (items : list value) (maxResults : value) : value :=
  VObj [("QueryResponse",
         VObj [("Customer", VArr items); ("startPosition", VNum 1);
               ("maxResults", maxResults)]);
        ("time", VStr "2026-01-05T10:00:00.000-08:00")].

(** A full page, a page of one record, a full page that does not say how
    many records it holds, the response for an empty result set, the same
    with an explicit empty array, and a fault response. *)
Definition full_page : value := page_body (repeat sample_customer 1000) (VNum 1000).
Definition last_page : value := page_body [sample_customer] (VNum 1).
Definition uncounted_page : value :=
  VObj [("QueryResponse", VObj [("Customer", VArr (repeat sample_customer 1000))])].
Definition empty_result : value :=
  VObj [("QueryResponse", VObj []); ("time", VStr "2026-01-05T10:00:00.000-08:00")].
Definition empty_array_result : value := page_body [] (VNum 0).
Definition mislabelled_page : value :=
  page_body (repeat sample_customer 1000) (VStr "1000abc").
Definition fault_detail : value :=
  VArr [VObj [("message", VStr "message=AuthenticationFailed; errorCode=003200; statusCode=401");
              ("code", VStr "3200")]].
Definition fault_body : value :=
  VObj [("fault", VObj [("error", fault_detail); ("type", VStr "AUTHENTICATION")]);
        ("time", VStr "2026-01-05T10:00:00.000-08:00")].

(** A remote API that answers the calls with the given bodies in turn, and
    with [final] after them. *)
Definition script (bodies : list value) (final : value) : remote_api :=
  fun n _ => Resolved (mkResponse 200 (nth n bodies final)).

(** A remote API that holds the customers [all] and answers a query with
    the page of at most 1000 records that starts at the position the query
    asks for (positions count from 1, the default). *)
Definition paged_server (all : list value) : remote_api :=
  fun _ req =>
    let position :=
      match find_after "STARTPOSITION " (req_url req) with
      | Some r =>
          match parseInt_string r with
          | Num z => Z.to_nat z
          | NaN => 1%nat
          end
      | None => 1%nat
      end in
    let items := firstn 1000 (skipn (position - 1) all) in
    Resolved (mkResponse 200 (page_body items (VNum (Z.of_nat (List.length items))))).

(* ================================================================== *)
(** ** The rest of the constructor and of the handlers                  *)
(* ================================================================== *)

(** [typeof v === 'object'] *)
Definition typeof_object (v : value) : bool :=
  match v with
  | VNull | VArr _ | VObj _ => true
  | _ => false
  end.

(** [this.name], [this.root] and [this.corsAllowedOrigins]. *)
Record app_settings : Type := mkSettings {
  setting_name : value;
  setting_root : value;
  setting_cors : value
}.

(** [src/server.js], lines 13-23: the options are kept when [typeof] says
    they are an object, and each setting falls back to its default. *)
Definition constructor_settings (options : value) : completion app_settings :=
  let this_options := if typeof_object options then options else VObj [] in
  match get this_options "name" with
  | Throw e => Throw e
  | Return name =>
      match get this_options "root" with
      | Throw e => Throw e
      | Return root =>
          match get this_options "corsAllowedOrigins" with
          | Throw e => Throw e
          | Return cors =>
              Return (mkSettings
                        (or_else name (VStr "Helio Quickbooks API"))
                        (or_else root (VStr "/apps/quickbooks"))
                        (or_else cors (VArr [VStr "http://localhost:3000/"])))
          end
      end
  end.

(** [process.env]: a variable is a string or is not set. *)
Definition process_env : Type := string -> option string.

(** [process.env.X || d] *)
Definition env_or (env : process_env) (x d : string) : string :=
  match env x with
  | Some s => if String.eqb s "" then d else s
  | None => d
  end.

(** The configuration object of lines 26-32. *)
Record oauth_config : Type := mkConfig {
  clientId : option string;
  clientSecret : option string;
  config_environment : string;
  redirectUri : string;
  logging : bool
}.

Definition oauth_config_of (env : process_env) : oauth_config :=
  mkConfig (env "INTUIT_CLIENT_ID") (env "INTUIT_CLIENT_SECRET")
    (env_or env "INTUIT_API_ENVIRONMENT" "sandbox")
    (match env "INTUIT_APP_CALLBACK_DOMAIN_ROOT" with
     | Some s => s
     | None => "undefined"
     end ++ "/apps/quickbooks/callback")
    (match env "INTUIT_API_LOGGING" with
     | Some s => String.eqb s "true"
     | None => false
     end).

(** The app as the constructor leaves it before it looks for a stored
    token: the name of line 19 (as the text it logs as), a client without
    a token and with the configured environment, and the file the machine
    holds.  The token of a client that was given none is modelled by the
    empty object: the one field the app reads from it, [realmId], is falsy
    there as it is in the library's token of defaults. *)
Definition new_App (options : value) (env : process_env) (stored : option string)
  : completion world :=
  match constructor_settings options with
  | Throw e => Throw e
  | Return settings =>
      Return (mkWorld (ToString (setting_name settings))
                (mkOAuth (VObj []) (config_environment (oauth_config_of env)))
                stored [] [] [])
  end.

(** Lines 66-74 with the detached refresh of line 71: the refresh is
    started only when the stored token was read and set.  [now] is the
    time of the constructor, [now'] the later time at which the refresh
    settles; the refresh is taken to settle before the write that line 70
    started has ended, which is the case in which the two writes meet. *)
Definition constructor_load (now : Z) (ro : refresh_outcome) (now' : Z) (w : world)
  : option detached :=
  match (data <- read_stored_token ;;
         log (LogSilly "Read locally stored QBO access token") ;;;
         setAccessToken now data) w with
  | Some (Return _, w1) => Some (spawn_refreshToken now' ro w1)
  | Some (Throw _, w1) =>
      Some (mkDetached
              (with_logged
                 (logged w1 ++ [LogSilly "Did not find a locally stored QBO access token"])%list
                 w1)
              None)
  | None => None
  end.

(** What the [qbo:get:customers] listener of lines 34-37 leaves behind:
    the events it emitted and the rejection nobody handles. *)
Record bridge_run : Type := mkBridge {
  bridge_world : world;
  bridge_emitted : list (string * list value);
  bridge_unhandled : option thrown
}.

Definition on_get_customers (remote : remote_api) (fuel : nat) (w : world)
  : option bridge_run :=
  match getAllCustomers remote fuel w with
  | Some (Return customers, w') =>
      Some (mkBridge w' [("qbo:result:customers", customers)] None)
  | Some (Throw e, w') => Some (mkBridge w' [] (Some e))
  | None => None
  end.





(** [src/server.js], lines 187-199. *)
Definition getCompanyInfo (remote : remote_api) : M response :=
  try_catch
    (tok <- gets (fun w => token (oauth w)) ;;
     realm <- lift (get tok "realmId") ;;
     results <- quickbooks remote
                  (mkArgs "companyinfo" VUndefined (VStr ("/" ++ ToString realm))
                          VUndefined VUndefined VUndefined) ;;
     ret (mkRes 200 (SendJson results)))
    (fun err =>
       let err_Fault := lookup "Fault" (err_props err) in
       log (LogError "[Helio Quickbooks]"
              (if truthy err_Fault then DetailValue err_Fault else DetailError err)) ;;;
       ret (mkRes 400 (SendError err))).

(* ================================================================== *)
(** ** More vocabulary                                                  *)
(* ================================================================== *)

(** From [w] to [w'] the name, the client, the file and the writes in
    flight are the same, and the requests sent and the log have only
    grown. *)
Definition frame (w w' : world) : Prop :=
  app_name w' = app_name w
  /\ oauth w' = oauth w
  /\ tmpfile w' = tmpfile w
  /\ writing w' = writing w
  /\ (exists reqs, sent w' = (sent w ++ reqs)%list)
  /\ (exists entries, logged w' = (logged w ++ entries)%list).

(** A computation that keeps the frame, however it ends. *)
Definition preserves {A : Type} (m : M A) : Prop :=
  forall w, match m w with
            | Some (_, w') => frame w w'
            | None => True
            end.

(** The error the [catch] of [quickbooks] throws for the error [e]. *)
Definition rethrown (e : thrown) : thrown :=
  if truthy (lookup "error" (err_props e))
  then new_Error (lookup "error" (err_props e))
  else e.

(** The error [quickbooks] throws on an answer, if it throws on it. *)
Definition call_error (o : api_outcome) : option thrown :=
  match o with
  | Rejected e => Some (rethrown e)
  | Resolved r =>
      match get (json r) "fault" with
      | Return f => if truthy f then Some (new_Error (prop f "error")) else None
      | Throw e => Some e
      end
  end.

Definition no_company_error : thrown :=
  new_Error (VStr "No company ID. Not connected to QB?").

Fixpoint no_space (s : string) : bool :=
  match s with
  | EmptyString => true
  | String c r => negb (Ascii.eqb c " ") && no_space r
  end.

(** The request with [req.user] set. *)
Definition with_user (data : value) (req : request) : request :=
  mkReq (http_method req) (path req) (authorization req) data.

(** The text [setAccessToken] writes for a credential. *)
Definition stored_text (c : Credential) : string :=
  match JSON.stringify (credential_value c) with
  | Some text => text
  | None => EmptyString
  end.

(** The credential as the client's token holds it: a [latency] or a
    [createdAt] of 0 counts as missing and takes its default. *)
Definition with_defaults (now : Z) (c : Credential) : Credential :=
  mkCredential (realmId c) (token_type c) (access_token c) (refresh_token c)
    (expires_in c) (x_refresh_token_expires_in c) (id_token c)
    (if latency c =? 0 then 60000 else latency c)
    (if createdAt c =? 0 then now else createdAt c).

(** Every field of the credential is there in the eyes of the library:
    [latency] and [createdAt], the two fields whose default is not their
    own falsy value, are not 0.  (For the other seven an empty text or a 0
    is its own default.) *)
Definition fully_present (c : Credential) : Prop :=
  latency c <> 0 /\ createdAt c <> 0.

(** The world after [setAccessToken] was called with the credential [c] at
    time [now]: the client holds it and the write of its text is in
    flight. *)
Definition saving (now : Z) (c : Credential) (w : world) : world :=
  with_writing (writing w ++ [stored_text c])%list
    (with_oauth (mkOAuth (credential_value (with_defaults now c)) (environment (oauth w))) w).

(** What one firing of the timer meets, at the time [now]: a refresh that
    gives a credential, or one that is rejected. *)
Inductive tick : Type :=
| TickRefreshed (now : Z) (c : Credential)
| TickRejected (now : Z) (e : thrown).

Definition tick_time (t : tick) : Z :=
  match t with
  | TickRefreshed now _ | TickRejected now _ => now
  end.

Definition tick_outcome (t : tick) : refresh_outcome :=
  match t with
  | TickRefreshed _ c => Refreshed (credential_value c)
  | TickRejected _ e => RefreshRejected e
  end.

(** The firings of the timer, one after the other. *)
Definition run_ticks (mode : rejection_mode) (ticks : list tick) (p : process) : process :=
  fold_left (fun p t => timer_tick mode (tick_time t) (tick_outcome t) p) ticks p.

(** The token of the last refresh that succeeded, [tok] if none did. *)
Definition last_refreshed (tok : value) (ticks : list tick) : value :=
  fold_left (fun tok t => match t with
                          | TickRefreshed now c => credential_value (with_defaults now c)
                          | TickRejected _ _ => tok
                          end) ticks tok.

(** The texts whose writes the refreshes of a run have started. *)
Definition texts_of (ticks : list tick) : list string :=
  flat_map (fun t => match t with
                     | TickRefreshed _ c => [stored_text c]
                     | TickRejected _ _ => []
                     end) ticks.

Definition rejections (ticks : list tick) : list thrown :=
  flat_map (fun t => match t with
                     | TickRefreshed _ _ => []
                     | TickRejected _ e => [e]
                     end) ticks.

(** The host the app's API calls go to. *)
Definition api_host (w : world) : string := base_url (environment (oauth w)).

(** A machine that holds the token file of [sample_credential], one whose
    token file is cut short, and an environment that asks for production. *)
Definition stored_world : world :=
  mkWorld "Helio Quickbooks API" (mkOAuth (VObj []) "sandbox")
    (Some (stored_text (mkCredential "4620816365199133610" "bearer" "access" "refresh"
                          3600 8726400 "" 60000 1730384727000))) [] [] [].
Definition broken_world : world :=
  mkWorld "Helio Quickbooks API" (mkOAuth (VObj []) "sandbox") (Some "{") [] [] [].
Definition production_env : process_env :=
  fun x => if String.eqb x "INTUIT_API_ENVIRONMENT" then Some "production" else None.

Definition refreshed_credential : Credential :=
  mkCredential "4620816365199133610" "bearer" "eyJlbmMiOiJBMTI4Q0JDLUhTMjU2In0.renewed"
    "AB11730388327refresh" 3600 8722800 "" 60000 1730388327000.

(** A rejection as the OAuth library makes it, and one without an [error]
    property. *)
Definition library_error : thrown :=
  mkThrown "Error" "Response has an Error" [("error", VStr "Unauthorized")].
Definition plain_error : thrown :=
  mkThrown "Error" "The Refresh token is missing" [].

(* ================================================================== *)
(** ** Lemmas on the monad and on [quickbooks]                          *)
(* ================================================================== *)

Lemma after_calls_nil (w : world) : after_calls w [] = w.
Proof.
  destruct w; unfold after_calls, with_sent, with_logged; simpl.
  now rewrite !app_nil_r.
Qed.

Lemma after_calls_app (w : world) (l1 l2 : list api_request) :
  after_calls (after_calls w l1) l2 = after_calls w (l1 ++ l2).
Proof.
  unfold after_calls, with_sent, with_logged; simpl.
  now rewrite map_app, !app_assoc.
Qed.

Lemma connected_after_calls (w : world) (l : list api_request) :
  connected (after_calls w l) = connected w.
Proof. reflexivity. Qed.

Lemma query_request_after_calls (w : world) (l : list api_request) (q : string) :
  query_request (after_calls w l) q = query_request w q.
Proof. reflexivity. Qed.

Lemma sent_after_calls (w : world) (l : list api_request) :
  sent (after_calls w l) = (sent w ++ l)%list.
Proof. reflexivity. Qed.

Lemma connected_get (w : world) :
  connected w = true ->
  get (token (oauth w)) "realmId" = Return (prop (token (oauth w)) "realmId").
Proof.
  unfold connected, prop.
  destruct (get (token (oauth w)) "realmId"); [reflexivity | discriminate].
Qed.

Lemma truthy_get (v : value) (k : string) :
  truthy v = true -> get v k = Return (prop v k).
Proof. destruct v; simpl; try discriminate; reflexivity. Qed.

(** What one call of [quickbooks] does when the app is connected and the
    remote API answers with a response whose body can be inspected. *)
Lemma quickbooks_resolved (remote : remote_api) (a : qb_args) (w : world)
    (r : auth_response) (f : value) :
  connected w = true ->
  remote (List.length (sent w)) (request_for w a) = Resolved r ->
  get (json r) "fault" = Return f ->
  quickbooks remote a w =
    Some (if truthy f then Throw (new_Error (prop f "error")) else Return (json r),
          after_calls w [request_for w a]).
Proof.
  intros Hc Hr Hf.
  unfold quickbooks, try_catch, bind, gets, lift, log, modify, makeApiCall, ret, throw.
  rewrite (connected_get w Hc).
  unfold connected in Hc. rewrite Hc.
  cbn [sent with_logged with_sent oauth logged app_name tmpfile].
  unfold request_for in Hr. rewrite Hr. rewrite Hf.
  destruct (truthy f) eqn:Ht.
  - rewrite (truthy_get f "error" Ht). reflexivity.
  - reflexivity.
Qed.

Lemma strict_eq_1000 (m : number) : strict_eq m (Num 1000) = true -> m = Num 1000.
Proof.
  destruct m as [z|]; simpl; [|discriminate].
  intros H. apply Z.eqb_eq in H. now subst.
Qed.

Lemma strict_eq_false (m : number) : strict_eq m (Num 1000) = false <-> m <> Num 1000.
Proof.
  split.
  - intros H ->. discriminate H.
  - intros H. destruct (strict_eq m (Num 1000)) eqn:He; [|reflexivity].
    now apply strict_eq_1000 in He.
Qed.

Lemma records_upto_S (items : nat -> list value) (k : nat) :
  records_upto items (S k) = (items O ++ records_upto (fun i => items (S i)) k)%list.
Proof.
  unfold records_upto.
  rewrite <- (cons_seq (S k) 0), <- (seq_shift (S k) 0).
  rewrite map_cons, concat_cons, map_map. reflexivity.
Qed.

(** Among the pages up to [n], either one does not report 1000, and there
    is a first such page, or they all report 1000. *)
Lemma first_stop (mrs : nat -> value) (n : nat) :
  (exists k, (k <= n)%nat /\ parseInt (mrs k) <> Num 1000
             /\ forall i, (i < k)%nat -> parseInt (mrs i) = Num 1000)
  \/ (forall i, (i <= n)%nat -> parseInt (mrs i) = Num 1000).
Proof.
  induction n as [|n [(k & Hk & Hne & Hlt) | Hall]].
  - destruct (strict_eq (parseInt (mrs O)) (Num 1000)) eqn:He.
    + right. intros i Hi. replace i with O by lia. now apply strict_eq_1000.
    + left. exists O. split; [lia|]. split.
      * apply strict_eq_false; exact He.
      * intros i Hi; lia.
  - left. exists k. split; [lia|]. split; assumption.
  - destruct (strict_eq (parseInt (mrs (S n))) (Num 1000)) eqn:He.
    + right. intros i Hi. destruct (Nat.eq_dec i (S n)) as [-> | Hne].
      * now apply strict_eq_1000.
      * apply Hall. lia.
    + left. exists (S n). split; [lia|]. split.
      * apply strict_eq_false; exact He.
      * intros i Hi. apply Hall. lia.
Qed.

Section Pagination.
Variable remote : remote_api.

(** A page that [read_page] accepts goes through the three statements of
    the loop body: the call returns its body, the records are appended and
    [maxResults] is parsed. *)
Lemma fetch_page (w : world) (q : string) (items : list value) (mr : value) :
  connected w = true ->
  answers remote w q 0 items mr ->
  exists results,
    quickbooks remote (query_args q) w
      = Some (Return results, after_calls w [query_request w q])
    /\ (forall acc w', push_customers acc results w' = Some (Return (acc ++ items)%list, w'))
    /\ (forall w', parse_maxResults results w' = Some (Return (parseInt mr), w')).
Proof.
  intros Hc Hp. unfold answers, read_page in Hp. rewrite Nat.add_0_r in Hp.
  destruct (remote _ _) as [r|e] eqn:Hr; [|discriminate].
  destruct (get (json r) "fault") as [f|] eqn:Hf; [|discriminate].
  destruct (truthy f) eqn:Ht; [discriminate|].
  destruct (get (json r) "QueryResponse") as [qr|] eqn:Hq; [|discriminate].
  destruct (get qr "Customer") as [cs|] eqn:Hcs; [|discriminate].
  destruct (get qr "maxResults") as [mr'|] eqn:Hmr; [|discriminate].
  destruct (spread cs) as [its|] eqn:Hs; [|discriminate].
  injection Hp as -> ->.
  exists (json r). split; [|split].
  - rewrite (quickbooks_resolved remote (query_args q) w r f Hc Hr Hf).
    now rewrite Ht.
  - intros acc w'. unfold push_customers, bind, lift, ret.
    now rewrite Hq, Hcs, Hs.
  - intros w'. unfold parse_maxResults, bind, lift, ret.
    now rewrite Hq, Hmr.
Qed.

(** An answer seen from the world after one more call. *)
Lemma answers_after_call (w : world) (r : api_request) (q : string) (i : nat)
    (items : list value) (mr : value) :
  answers remote w q (S i) items mr ->
  answers remote (after_calls w [r]) q i items mr.
Proof.
  unfold answers. rewrite sent_after_calls, length_app, query_request_after_calls.
  cbn [List.length].
  now replace (List.length (sent w) + 1 + i)%nat with (List.length (sent w) + S i)%nat by lia.
Qed.

(** One turn of the loop on a readable page. *)
Lemma customers_loop_step (fuel : nat) (acc : list value) (w : world)
    (items : list value) (mr : value) :
  connected w = true ->
  answers remote w (next_query (Num 1000)) 0 items mr ->
  customers_loop remote (S fuel) acc (Num 1000) w
  = customers_loop remote fuel (acc ++ items)%list (parseInt mr)
      (after_calls w [query_request w (next_query (Num 1000))]).
Proof.
  intros Hc Hp.
  destruct (fetch_page w _ items mr Hc Hp) as (results & Hq & Hpush & Hparse).
  cbn [customers_loop strict_eq]. change (1000 =? 1000) with true. cbv iota.
  unfold bind at 1. rewrite Hq.
  unfold bind at 1. rewrite Hpush.
  unfold bind at 1. rewrite Hparse.
  reflexivity.
Qed.

(** The loop, entered with [maxResults = 1000], runs through the full
    pages and stops on the first page whose parsed [maxResults] is not
    1000; every request it sends carries [STARTPOSITION 1000]. *)
Lemma customers_loop_stops :
  forall (k : nat) (w : world) (acc : list value)
         (items : nat -> list value) (mrs : nat -> value) (fuel : nat),
    connected w = true ->
    (forall i, (i <= k)%nat ->
               answers remote w (next_query (Num 1000)) i (items i) (mrs i)) ->
    (forall i, (i < k)%nat -> parseInt (mrs i) = Num 1000) ->
    strict_eq (parseInt (mrs k)) (Num 1000) = false ->
    (k < fuel)%nat ->
    customers_loop remote fuel acc (Num 1000) w
    = Some (Return (acc ++ records_upto items k)%list,
            after_calls w (repeat (query_request w (next_query (Num 1000))) (S k))).
Proof.
  induction k as [|k IH]; intros w acc items mrs fuel Hc Hserve Hfull Hstop Hfuel;
    (destruct fuel as [|fuel]; [lia|]);
    rewrite (customers_loop_step fuel acc w _ _ Hc (Hserve O (Nat.le_0_l _))).
  - destruct fuel; cbn [customers_loop]; rewrite Hstop; unfold ret, records_upto;
      simpl; now rewrite List.app_nil_r.
  - rewrite (Hfull O) by lia.
    rewrite (IH _ _ (fun i => items (S i)) (fun i => mrs (S i))).
    + rewrite after_calls_app, query_request_after_calls, records_upto_S, List.app_assoc.
      reflexivity.
    + now rewrite connected_after_calls.
    + intros i Hi. apply answers_after_call, Hserve. lia.
    + intros i Hi. apply Hfull. lia.
    + exact Hstop.
    + lia.
Qed.

(** As long as the pages report 1000 the loop goes on: fuel for [fuel]
    turns is used up by [fuel] full pages. *)
Lemma customers_loop_goes_on :
  forall (fuel : nat) (w : world) (acc : list value)
         (items : nat -> list value) (mrs : nat -> value),
    connected w = true ->
    (forall i, (i < fuel)%nat ->
               answers remote w (next_query (Num 1000)) i (items i) (mrs i)) ->
    (forall i, (i < fuel)%nat -> parseInt (mrs i) = Num 1000) ->
    customers_loop remote fuel acc (Num 1000) w = None.
Proof.
  induction fuel as [|fuel IH]; intros w acc items mrs Hc Hserve Hfull.
  - reflexivity.
  - rewrite (customers_loop_step fuel acc w _ _ Hc (Hserve O (Nat.lt_0_succ _))).
    rewrite (Hfull O) by lia.
    apply (IH _ _ (fun i => items (S i)) (fun i => mrs (S i))).
    + now rewrite connected_after_calls.
    + intros i Hi. apply answers_after_call, Hserve. lia.
    + intros i Hi. apply Hfull. lia.
Qed.

(** The first request of [getAllCustomers] and what follows. *)
Lemma getAllCustomers_first (fuel : nat) (w : world) (items : list value) (mr : value) :
  connected w = true ->
  serves remote w 0 items mr ->
  getAllCustomers remote fuel w
  = if strict_eq (parseInt mr) (Num 1000)
    then customers_loop remote fuel items (Num 1000)
           (after_calls w [query_request w first_query])
    else Some (Return items, after_calls w [query_request w first_query]).
Proof.
  intros Hc Hp.
  destruct (fetch_page w first_query items mr Hc Hp) as (results & Hq & Hpush & Hparse).
  unfold getAllCustomers.
  unfold bind at 1. rewrite Hq.
  unfold bind at 1. rewrite Hpush.
  unfold bind at 1. rewrite Hparse.
  simpl app.
  destruct (strict_eq (parseInt mr) (Num 1000)) eqn:He; [|reflexivity].
  now rewrite (strict_eq_1000 _ He).
Qed.

Lemma requests_of_run_S (w : world) (k : nat) :
  requests_of_run w k
  = query_request w first_query :: repeat (query_request w (next_query (Num 1000))) k.
Proof.
  unfold requests_of_run.
  rewrite <- (cons_seq k 0), <- (seq_shift k 0), map_cons, map_map.
  cbn [page_query]. f_equal.
  now rewrite map_const, length_seq.
Qed.

(** [getAllCustomers] stops on the first page whose parsed [maxResults] is
    not 1000 and returns the records of all pages up to it. *)
Lemma getAllCustomers_stops (k : nat) (w : world)
    (items : nat -> list value) (mrs : nat -> value) (fuel : nat) :
  connected w = true ->
  (forall i, (i <= k)%nat -> serves remote w i (items i) (mrs i)) ->
  (forall i, (i < k)%nat -> parseInt (mrs i) = Num 1000) ->
  strict_eq (parseInt (mrs k)) (Num 1000) = false ->
  (k <= fuel)%nat ->
  getAllCustomers remote fuel w
  = Some (Return (records_upto items k), after_calls w (requests_of_run w k)).
Proof.
  intros Hc Hserve Hfull Hstop Hfuel.
  rewrite (getAllCustomers_first fuel w (items O) (mrs O) Hc (Hserve O (Nat.le_0_l _))).
  rewrite requests_of_run_S.
  destruct k as [|k].
  - rewrite Hstop. unfold records_upto. simpl. now rewrite List.app_nil_r.
  - rewrite (Hfull O) by lia. cbn [strict_eq]. change (1000 =? 1000) with true. cbv iota.
    rewrite (customers_loop_stops k _ (items O)
               (fun i => items (S i)) (fun i => mrs (S i)) fuel).
    + rewrite after_calls_app, query_request_after_calls, records_upto_S. reflexivity.
    + now rewrite connected_after_calls.
    + intros i Hi. apply answers_after_call, (Hserve (S i)). lia.
    + intros i Hi. apply Hfull. lia.
    + exact Hstop.
    + lia.
Qed.

(** While the pages report 1000, [getAllCustomers] has not returned. *)
Lemma getAllCustomers_goes_on (w : world)
    (items : nat -> list value) (mrs : nat -> value) (fuel : nat) :
  connected w = true ->
  (forall i, (i <= fuel)%nat -> serves remote w i (items i) (mrs i)) ->
  (forall i, (i <= fuel)%nat -> parseInt (mrs i) = Num 1000) ->
  getAllCustomers remote fuel w = None.
Proof.
  intros Hc Hserve Hfull.
  rewrite (getAllCustomers_first fuel w (items O) (mrs O) Hc (Hserve O (Nat.le_0_l _))).
  rewrite (Hfull O) by lia. cbn [strict_eq]. change (1000 =? 1000) with true. cbv iota.
  apply (customers_loop_goes_on fuel _ _ (fun i => items (S i)) (fun i => mrs (S i))).
  - now rewrite connected_after_calls.
  - intros i Hi. apply answers_after_call, (Hserve (S i)). lia.
  - intros i Hi. apply Hfull. lia.
Qed.

End Pagination.

(* ================================================================== *)
(** ** Lemmas on [JSON.stringify] and [JSON.parse]                      *)
(* ================================================================== *)

Lemma append_assoc (a b c : string) : ((a ++ b) ++ c = a ++ (b ++ c))%string.
Proof. induction a as [|x a IH]; simpl; [reflexivity | now rewrite IH]. Qed.

Lemma length_append (a b : string) :
  String.length (a ++ b) = (String.length a + String.length b)%nat.
Proof. induction a as [|x a IH]; simpl; [reflexivity | now rewrite IH]. Qed.

(** Reading back one escaped character. *)
Lemma parse_chars_escape_char (c : ascii) (t : string) :
  JSON.parse_chars (JSON.escape_char c ++ t) = JSON.cons_char c (JSON.parse_chars t).
Proof.
  destruct c as [[] [] [] [] [] [] [] []]; reflexivity.
Qed.

(** A quoted string reads back as itself. *)
Lemma parse_chars_escape (s rest : string) :
  JSON.parse_chars (JSON.escape s ++ String JSON.dquote rest) = Some (s, rest).
Proof.
  induction s as [|c s IH].
  - reflexivity.
  - cbn [JSON.escape]. rewrite append_assoc, parse_chars_escape_char, IH.
    reflexivity.
Qed.

Lemma quote_append (s rest : string) :
  (JSON.quote s ++ rest)%string
  = String JSON.dquote (JSON.escape s ++ String JSON.dquote rest).
Proof. unfold JSON.quote. cbn [append]. now rewrite append_assoc. Qed.

Lemma read_uint_string_of_uint (d : uint) (c : ascii) (r : string) :
  digit_of_ascii c = None ->
  read_uint (NilEmpty.string_of_uint d ++ String c r) = (d, String c r).
Proof.
  intros Hc.
  induction d; cbn [NilEmpty.string_of_uint append read_uint];
    [now rewrite Hc | ..];
    match goal with
    | |- context [digit_of_ascii ?x] =>
        let v := eval vm_compute in (digit_of_ascii x) in
        change (digit_of_ascii x) with v
    end; cbv iota; now rewrite IHd.
Qed.

Lemma nzhead_no_leading_zero (d : uint) :
  match nzhead d with D0 _ => False | _ => True end.
Proof. induction d; simpl; auto. Qed.

Lemma canonical_unorm (d : uint) : canonical (unorm d) = true.
Proof.
  unfold unorm. pose proof (nzhead_no_leading_zero d) as H.
  destruct (nzhead d); try reflexivity. contradiction.
Qed.

Lemma to_uint_canonical (p : positive) : canonical (Pos.to_uint p) = true.
Proof.
  pose proof (DecimalPos.Unsigned.to_of (Pos.to_uint p)) as H.
  rewrite DecimalPos.Unsigned.of_to in H. cbn [N.to_uint] in H.
  rewrite H. apply canonical_unorm.
Qed.

Lemma delimiter_cases (c : ascii) :
  delimiter c = true -> c = ","%char \/ c = "}"%char.
Proof.
  unfold delimiter. intros H. apply orb_true_iff in H.
  destruct H as [H|H]; apply Ascii.eqb_eq in H; auto.
Qed.

Lemma parse_unsigned_uint (u : uint) (c : ascii) (r : string) :
  canonical u = true -> delimiter c = true ->
  JSON.parse_unsigned (NilEmpty.string_of_uint u ++ String c r)
  = Some (Z.of_N (N.of_uint u), String c r).
Proof.
  intros Hu Hc. unfold JSON.parse_unsigned.
  destruct (delimiter_cases c Hc) as [-> | ->];
    (rewrite read_uint_string_of_uint by reflexivity);
    fold (canonical u); rewrite Hu; reflexivity.
Qed.

Lemma parse_number_uint (u : uint) (rest : string) :
  u <> Nil ->
  JSON.parse_number (NilEmpty.string_of_uint u ++ rest)
  = JSON.parse_unsigned (NilEmpty.string_of_uint u ++ rest).
Proof.
  intros Hu. destruct u; [contradiction | reflexivity ..].
Qed.

(** A printed number, followed by a delimiter, reads back as itself. *)
Lemma parse_number_toString (n : Z) (c : ascii) (r : string) :
  delimiter c = true ->
  JSON.parse_number (Number_toString n ++ String c r) = Some (n, String c r).
Proof.
  intros Hc. unfold Number_toString.
  destruct n as [|p|p]; cbn [Z.to_int NilZero.string_of_int].
  - destruct (delimiter_cases c Hc) as [-> | ->]; reflexivity.
  - unfold NilZero.string_of_uint.
    pose proof (DecimalPos.Unsigned.to_uint_nonnil p) as Hn.
    replace (match Pos.to_uint p with Nil => "0" | _ => NilEmpty.string_of_uint (Pos.to_uint p) end)
      with (NilEmpty.string_of_uint (Pos.to_uint p))
      by (destruct (Pos.to_uint p); [contradiction | reflexivity ..]).
    rewrite parse_number_uint by exact Hn.
    rewrite parse_unsigned_uint by (auto using to_uint_canonical).
    change (N.of_uint (Pos.to_uint p)) with (Pos.of_uint (Pos.to_uint p)).
    now rewrite DecimalPos.Unsigned.of_to.
  - unfold NilZero.string_of_uint.
    pose proof (DecimalPos.Unsigned.to_uint_nonnil p) as Hn.
    replace (match Pos.to_uint p with Nil => "0" | _ => NilEmpty.string_of_uint (Pos.to_uint p) end)
      with (NilEmpty.string_of_uint (Pos.to_uint p))
      by (destruct (Pos.to_uint p); [contradiction | reflexivity ..]).
    cbn [append JSON.parse_number].
    rewrite parse_unsigned_uint by (auto using to_uint_canonical).
    change (N.of_uint (Pos.to_uint p)) with (Pos.of_uint (Pos.to_uint p)).
    now rewrite DecimalPos.Unsigned.of_to.
Qed.

Lemma number_toString_head (n : Z) :
  exists h t, Number_toString n = String h t /\ number_start h = true.
Proof.
  unfold Number_toString.
  destruct n as [|p|p]; cbn [Z.to_int NilZero.string_of_int].
  - now exists "0"%char, EmptyString.
  - unfold NilZero.string_of_uint.
    destruct (Pos.to_uint p); cbn [NilEmpty.string_of_uint];
      eexists; eexists; split; reflexivity.
  - eexists; eexists; split; reflexivity.
Qed.

Lemma parse_value_number_start (f : nat) (h : ascii) (t : string) :
  number_start h = true ->
  JSON.parse_value (S f) (String h t)
  = match JSON.parse_number (String h t) with
    | Some (n, rest) => Some (VNum n, rest)
    | None => None
    end.
Proof.
  destruct h as [[] [] [] [] [] [] [] []]; intros H;
    try discriminate H; reflexivity.
Qed.

(** A printed scalar, followed by a delimiter, reads back as itself. *)
Lemma parse_value_scalar (f : nat) (v : value) (t : string) (c : ascii) (r : string) :
  scalar v = true ->
  JSON.stringify v = Some t ->
  delimiter c = true ->
  JSON.parse_value (S f) (t ++ String c r) = Some (v, String c r).
Proof.
  intros Hs Ht Hc.
  destruct v as [| |b|n|s|l|l]; try discriminate Hs.
  - injection Ht as <-. reflexivity.
  - destruct b; injection Ht as <-; reflexivity.
  - injection Ht as <-.
    destruct (number_toString_head n) as (h & t & Hn & Hh).
    pose proof (parse_number_toString n c r Hc) as Hp.
    rewrite Hn in *. cbn [append] in *.
    rewrite (parse_value_number_start f h _ Hh), Hp. reflexivity.
  - injection Ht as <-.
    rewrite quote_append.
    cbn [JSON.parse_value JSON.skip_ws].
    change (JSON.is_ws JSON.dquote) with false. cbv iota.
    change (Ascii.eqb JSON.dquote JSON.dquote) with true. cbv iota.
    now rewrite parse_chars_escape.
Qed.

Lemma skip_ws_quote (k rest : string) :
  JSON.skip_ws (JSON.quote k ++ rest)
  = String JSON.dquote (JSON.escape k ++ String JSON.dquote rest).
Proof. now rewrite quote_append. Qed.

Lemma scalar_stringify (v : value) :
  scalar v = true -> exists t, JSON.stringify v = Some t.
Proof.
  destruct v as [| |b|n|s|l|l]; try discriminate; intros _.
  - now eexists.
  - destruct b; now eexists.
  - now eexists.
  - now eexists.
Qed.

(** The text of the members after the first starts with a comma, so what
    follows a member's value is a delimiter. *)
Lemma members_then_brace (fields : list (string * value)) (rest : string) :
  Forall (fun kv => scalar (snd kv) = true) fields ->
  exists c r,
    (JSON.stringify_members JSON.stringify false fields ++ String "}" rest)%string
    = String c r /\ delimiter c = true.
Proof.
  intros Hf. destruct fields as [|(k, v) fields].
  - now exists "}"%char, rest.
  - apply Forall_inv in Hf. cbn [snd] in Hf.
    destruct (scalar_stringify v Hf) as (t & Ht).
    cbn [JSON.stringify_members]. rewrite Ht. cbn [append].
    eexists; eexists; split; reflexivity.
Qed.

Lemma obj_set_fresh (k : string) (v : value) (acc : list (string * value)) :
  ~ In k (map fst acc) -> JSON.obj_set k v acc = (acc ++ [(k, v)])%list.
Proof.
  induction acc as [|(k', v') acc IH]; intros Hn.
  - reflexivity.
  - cbn [JSON.obj_set]. destruct (String.eqb k k') eqn:He.
    + apply String.eqb_eq in He. subst. exfalso. apply Hn. now left.
    + cbn [app]. rewrite IH; [reflexivity|]. intros Hi. apply Hn. now right.
Qed.

(** One member [,"k":v] of a flat object reads back as the pair. *)
Lemma parse_member_scalar (f : nat) (k : string) (v : value) (t : string)
    (c : ascii) (r : string) :
  scalar v = true ->
  JSON.stringify v = Some t ->
  delimiter c = true ->
  JSON.parse_member (JSON.parse_value (S f)) (JSON.quote k ++ ":" ++ t ++ String c r)
  = Some (k, v, String c r).
Proof.
  intros Hs Ht Hc. unfold JSON.parse_member.
  rewrite quote_append.
  cbn [JSON.skip_ws].
  change (JSON.is_ws JSON.dquote) with false. cbv iota.
  change (Ascii.eqb JSON.dquote JSON.dquote) with true. cbv iota.
  rewrite parse_chars_escape.
  cbn [append JSON.skip_ws].
  change (JSON.is_ws ":") with false. cbv iota.
  change (Ascii.eqb ":" ":") with true. cbv iota.
  now rewrite (parse_value_scalar f v t c r Hs Ht Hc).
Qed.

(** The members of a flat object, read after the first one. *)
Lemma parse_members_flat (f : nat) :
  forall (fields acc : list (string * value)) (fuel : nat) (rest : string),
    Forall (fun kv => scalar (snd kv) = true) fields ->
    NoDup (map fst (acc ++ fields)) ->
    (List.length fields < fuel)%nat ->
    JSON.parse_members (JSON.parse_value (S f)) fuel acc
      (JSON.stringify_members JSON.stringify false fields ++ String "}" rest)
    = Some (VObj (acc ++ fields), rest).
Proof.
  induction fields as [|(k, v) fields IH]; intros acc fuel rest Hf Hnd Hfuel.
  - destruct fuel as [|fuel]; [inversion Hfuel|].
    cbn. now rewrite List.app_nil_r.
  - destruct fuel as [|fuel]; [inversion Hfuel|].
    pose proof (Forall_inv Hf) as Hv. cbn [snd] in Hv.
    pose proof (Forall_inv_tail Hf) as Hf'.
    destruct (scalar_stringify v Hv) as (t & Ht).
    destruct (members_then_brace fields rest Hf') as (c & r & Hr & Hc).
    cbn [JSON.stringify_members]. rewrite Ht.
    rewrite !append_assoc. rewrite Hr.
    cbn [append JSON.parse_members JSON.skip_ws].
    change (JSON.is_ws ",") with false. cbv iota.
    change (Ascii.eqb "," "}") with false. cbv iota.
    change (Ascii.eqb "," ",") with true. cbv iota.
    pose proof (parse_member_scalar f k v t c r Hv Ht Hc) as Hm.
    cbn [append] in Hm. rewrite Hm.
    rewrite obj_set_fresh.
    + rewrite <- Hr, IH; try assumption.
      * now rewrite <- List.app_assoc.
      * now rewrite <- List.app_assoc.
      * cbn [List.length] in Hfuel. lia.
    + rewrite map_app in Hnd. cbn [map fst] in Hnd.
      apply NoDup_remove_2 in Hnd. intros Hi. apply Hnd.
      apply in_or_app. now left.
Qed.

Lemma members_length (b : bool) (fields : list (string * value)) :
  Forall (fun kv => scalar (snd kv) = true) fields ->
  (List.length fields <= String.length (JSON.stringify_members JSON.stringify b fields))%nat.
Proof.
  revert b. induction fields as [|(k, v) fields IH]; intros b Hf.
  - apply Nat.le_0_l.
  - pose proof (Forall_inv Hf) as Hv. cbn [snd] in Hv.
    destruct (scalar_stringify v Hv) as (t & Ht).
    cbn [JSON.stringify_members List.length]. rewrite Ht.
    rewrite !length_append.
    specialize (IH false (Forall_inv_tail Hf)).
    unfold JSON.quote. cbn [String.length]. lia.
Qed.

Lemma parse_value_object (f : nat) (r : string) :
  JSON.parse_value (S f) (String "{" r)
  = match JSON.skip_ws r with
    | String "}" r' => Some (VObj [], r')
    | _ =>
        match JSON.parse_member (JSON.parse_value f) r with
        | Some (k, v, r') => JSON.parse_members (JSON.parse_value f) f [(k, v)] r'
        | None => None
        end
    end.
Proof. reflexivity. Qed.

(** The text of a flat object reads back as the object, given fuel for its
    members. *)
Lemma parse_value_flat (fuel : nat) (fields : list (string * value)) (rest : string) :
  flat fields ->
  (List.length fields < fuel)%nat ->
  JSON.parse_value (S fuel)
    (String "{" (JSON.stringify_members JSON.stringify true fields ++ String "}" rest))
  = Some (VObj fields, rest).
Proof.
  intros (Hnd & Hf) Hfuel.
  destruct fields as [|(k, v) fields].
  - destruct fuel; reflexivity.
  - destruct fuel as [|n]; [inversion Hfuel|].
    pose proof (Forall_inv Hf) as Hv. cbn [snd] in Hv.
    pose proof (Forall_inv_tail Hf) as Hf'.
    destruct (scalar_stringify v Hv) as (t & Ht).
    destruct (members_then_brace fields rest Hf') as (c & r & Hr & Hc).
    cbn [JSON.stringify_members]. rewrite Ht.
    cbn [append]. rewrite !append_assoc. cbn [append]. rewrite !append_assoc.
    rewrite parse_value_object, skip_ws_quote. cbn [JSON.dquote]. cbv iota.
    rewrite Hr.
    pose proof (parse_member_scalar n k v t c r Hv Ht Hc) as Hm.
    cbn [append] in Hm. rewrite Hm.
    rewrite <- Hr.
    apply (parse_members_flat n fields [(k, v)] (S n) rest Hf' Hnd).
    cbn [List.length] in Hfuel. lia.
Qed.

(** [JSON.parse(JSON.stringify(o))] is [o] for a flat object [o]. *)
Lemma parse_stringify_flat (fields : list (string * value)) :
  flat fields ->
  exists text,
    JSON.stringify (VObj fields) = Some text
    /\ JSON.parse text = Some (Return (VObj fields)).
Proof.
  intros Hflat.
  exists ("{" ++ JSON.stringify_members JSON.stringify true fields ++ "}")%string.
  split; [reflexivity|].
  unfold JSON.parse, JSON.read_value. cbn [append].
  rewrite parse_value_flat; [reflexivity | exact Hflat |].
  cbn [String.length]. rewrite length_append. cbn [String.length].
  pose proof (members_length true fields (proj2 Hflat)). lia.
Qed.

(* ================================================================== *)
(** ** The pagination of [getAllCustomers]                              *)
(* ================================================================== *)

(** C1 (as the code has it).  With three pages of 1000, 1000 and 1 records
    the run sends three requests whose start offsets are 0, 1000 and 1000:
    the second page was full, yet the third request asks for the same
    offset as the second.  The offset is the [maxResults] of the last page,
    which is 1000 on every turn of the loop.  Against a server that pages
    2500 customers by the position asked for, the same request therefore
    gets the same full page again and again, and the run never returns. *)
Theorem getAllCustomers_offset_repeats :
  (exists result w',
      getAllCustomers (script [full_page; full_page] last_page) 2 sample_world
        = Some (Return result, w')
      /\ List.length result = 2001%nat
      /\ offsets_sent w' = [0; 1000; 1000]
      /\ strictly_increasing (offsets_sent w') = false)
  /\ (forall fuel,
        getAllCustomers (paged_server (repeat sample_customer 2500)) fuel sample_world
        = None).
Proof.
  split.
  - eexists; eexists. split; [vm_compute; reflexivity|].
    repeat split; vm_compute; reflexivity.
  - intros fuel.
    apply (getAllCustomers_goes_on (paged_server (repeat sample_customer 2500))
             sample_world (fun _ => repeat sample_customer 1000) (fun _ => VNum 1000)).
    + reflexivity.
    + intros i _. destruct i; vm_compute; reflexivity.
    + intros i _. reflexivity.
Qed.

(** C2 (as stated) fails: a remote API whose pages hold 1000 records each
    and carry no [maxResults] makes the run end after the first page,
    although no page is short. *)
Lemma terminates_without_short_page :
  ~ (forall (remote : remote_api) (w : world)
            (items : nat -> list value) (mrs : nat -> value),
        connected w = true ->
        (forall i, serves remote w i (items i) (mrs i)) ->
        (terminates remote w <-> exists k, short_page (items k) (mrs k))).
Proof.
  intros H.
  specialize (H (script [] uncounted_page) sample_world
                (fun _ => repeat sample_customer 1000) (fun _ => VUndefined)
                eq_refl).
  destruct H as [H _].
  - intros i. destruct i as [|[|i]]; reflexivity.
  - destruct H as (k & [Hk | (z & Hz & _)]).
    + exists O. vm_compute. discriminate.
    + rewrite repeat_length in Hk. lia.
    + discriminate Hz.
Qed.

(** C2 (amended).  For a remote API whose answers are readable pages, the
    run ends if and only if some page's parsed [maxResults] is not 1000; it
    stops on the first such page (be the value smaller, larger or [NaN])
    and returns the records of all pages up to it; and while every page
    reports 1000 it keeps requesting, whatever the fuel. *)
Theorem getAllCustomers_terminates_iff (remote : remote_api) (w : world)
    (items : nat -> list value) (mrs : nat -> value) :
  connected w = true ->
  (forall i, serves remote w i (items i) (mrs i)) ->
  (terminates remote w <-> exists k, parseInt (mrs k) <> Num 1000)
  /\ (forall k fuel,
        (forall i, (i < k)%nat -> parseInt (mrs i) = Num 1000) ->
        parseInt (mrs k) <> Num 1000 ->
        (k <= fuel)%nat ->
        getAllCustomers remote fuel w
        = Some (Return (records_upto items k), after_calls w (requests_of_run w k)))
  /\ ((forall k, parseInt (mrs k) = Num 1000) ->
      forall fuel, getAllCustomers remote fuel w = None).
Proof.
  intros Hc Hserve.
  assert (Hstop : forall k fuel,
             (forall i, (i < k)%nat -> parseInt (mrs i) = Num 1000) ->
             parseInt (mrs k) <> Num 1000 ->
             (k <= fuel)%nat ->
             getAllCustomers remote fuel w
             = Some (Return (records_upto items k), after_calls w (requests_of_run w k))).
  { intros k fuel Hfull Hne Hfuel.
    apply (getAllCustomers_stops remote k w items mrs fuel); auto.
    now apply strict_eq_false. }
  split; [split|split].
  - intros (fuel & Hrun).
    destruct (first_stop mrs fuel) as [(k & _ & Hne & _) | Hall].
    + now exists k.
    + exfalso. apply Hrun.
      apply (getAllCustomers_goes_on remote w items mrs fuel); auto.
  - intros (k & Hne).
    destruct (first_stop mrs k) as [(j & Hj & Hnej & Hlt) | Hall].
    + exists j. rewrite (Hstop j j Hlt Hnej (Nat.le_refl _)). discriminate.
    + exfalso. apply Hne. apply Hall. lia.
  - exact Hstop.
  - intros Hall fuel.
    apply (getAllCustomers_goes_on remote w items mrs fuel); auto.
Qed.

Lemma getAllCustomers_terminates_iff_witness :
  (terminates (script [full_page; full_page] last_page) sample_world
   <-> exists k, parseInt (match k with
                           | 0%nat | 1%nat => VNum 1000
                           | _ => VNum 1
                           end) <> Num 1000).
Proof.
  apply (getAllCustomers_terminates_iff
           (script [full_page; full_page] last_page) sample_world
           (fun k => match k with
                     | 0%nat | 1%nat => repeat sample_customer 1000
                     | _ => [sample_customer]
                     end)
           (fun k => match k with
                     | 0%nat | 1%nat => VNum 1000
                     | _ => VNum 1
                     end)).
  - reflexivity.
  - intros i. destruct i as [|[|[|i]]]; reflexivity.
Defined.

(** What follows the first occurrence of a pattern is not in a prefix
    that lacks the pattern's first character. *)
Lemma find_after_past (c : ascii) (pat p t : string) :
  forallb (fun x => negb (Ascii.eqb c x)) (list_ascii_of_string p) = true ->
  find_after (String c pat) (p ++ t) = find_after (String c pat) t.
Proof.
  induction p as [|x p IH]; intros H; [reflexivity|].
  cbn [list_ascii_of_string forallb] in H. apply andb_true_iff in H. destruct H as [Hx Hp].
  apply negb_true_iff in Hx.
  cbn [append find_after strip_prefix]. rewrite Hx. now apply IH.
Qed.

Lemma all_digits_no_letter (s : string) :
  all_digits s = true ->
  forallb (fun x => negb (Ascii.eqb "S" x)) (list_ascii_of_string s) = true.
Proof.
  induction s as [|x s IH]; intros H; [reflexivity|].
  cbn [all_digits] in H. cbn [list_ascii_of_string forallb].
  destruct (digit_of_ascii x) eqn:Hd; [|discriminate].
  rewrite (IH H), andb_true_r.
  destruct (Ascii.eqb_spec "S" x) as [<- | Hne]; [discriminate Hd | reflexivity].
Qed.

(** The start offset of a query request, read off its URL, for a realm id
    made of digits. *)
Lemma start_offset_query (w : world) (q : string) :
  all_digits (realm_of w) = true ->
  start_offset (req_url (query_request w q)) = start_offset ("/query" ++ q).
Proof.
  intros Hd.
  assert (Hu : req_url (query_request w q)
               = base_url (environment (oauth w))
                 ++ "v3/company/" ++ realm_of w ++ "/query" ++ q).
  { unfold query_request, request_for, api_url, query_args, realm_of, or_else.
    cbn [req_url action urlParams query truthy ToString].
    destruct (String.eqb_spec q "") as [-> | Hq]; reflexivity. }
  rewrite Hu. unfold start_offset, base_url.
  assert (Hp : find_after "STARTPOSITION "
                 ("v3/company/" ++ realm_of w ++ "/query" ++ q)
               = find_after "STARTPOSITION " ("/query" ++ q)).
  { rewrite (find_after_past "S" "TARTPOSITION " "v3/company/") by reflexivity.
    now rewrite (find_after_past "S" "TARTPOSITION " (realm_of w))
      by (apply all_digits_no_letter, Hd). }
  destruct (String.eqb (environment (oauth w)) "sandbox");
    [rewrite (find_after_past "S" "TARTPOSITION " environment_sandbox) by reflexivity
    |rewrite (find_after_past "S" "TARTPOSITION " environment_production) by reflexivity];
    now rewrite Hp.
Qed.

(** C3.  When the remote API answers with a page of 1000 records and then
    a page of one record, each reporting its count in [maxResults],
    [getAllCustomers] returns the 1001 records, first page first, and sends
    exactly two requests, both GET: the URL of the first ends with the query
    that has no start clause, the URL of the second with the query that asks
    for [STARTPOSITION 1000].  Read off the URLs that went out, for a realm
    id made of digits, the start offsets are 0 and 1000. *)
Theorem getAllCustomers_two_pages (remote : remote_api) (w : world)
    (page1 page2 : list value) (fuel : nat) :
  connected w = true ->
  List.length page1 = 1000%nat ->
  List.length page2 = 1%nat ->
  serves remote w 0 page1 (VNum 1000) ->
  serves remote w 1 page2 (VNum 1) ->
  (1 <= fuel)%nat ->
  exists w' r1 r2,
    getAllCustomers remote fuel w = Some (Return (page1 ++ page2)%list, w')
    /\ List.length (page1 ++ page2)%list = 1001%nat
    /\ sent w' = (sent w ++ [r1; r2])%list
    /\ req_method r1 = VStr "GET" /\ req_method r2 = VStr "GET"
    /\ req_url r1
       = (if String.eqb (environment (oauth w)) "sandbox"
          then "https://sandbox-quickbooks.api.intuit.com/"
          else "https://quickbooks.api.intuit.com/")
         ++ "v3/company/" ++ realm_of w
         ++ "/query?query=SELECT * FROM Customer MAXRESULTS 1000"
    /\ req_url r2
       = (if String.eqb (environment (oauth w)) "sandbox"
          then "https://sandbox-quickbooks.api.intuit.com/"
          else "https://quickbooks.api.intuit.com/")
         ++ "v3/company/" ++ realm_of w
         ++ "/query?query=SELECT * FROM Customer STARTPOSITION 1000 MAXRESULTS 1000"
    /\ (all_digits (realm_of w) = true ->
        offsets_sent w' = (offsets_sent w ++ [0; 1000])%list).
Proof.
  intros Hc H1 H2 Hs1 Hs2 Hfuel.
  exists (after_calls w (requests_of_run w 1)),
         (query_request w (page_query 0)), (query_request w (page_query 1)).
  split; [|split; [|split; [|split; [|split; [|split; [|split]]]]]].
  - rewrite (getAllCustomers_stops remote 1 w
               (fun i => match i with O => page1 | _ => page2 end)
               (fun i => match i with O => VNum 1000 | _ => VNum 1 end) fuel);
      try assumption.
    + unfold records_upto. cbn [seq map List.concat]. now rewrite List.app_nil_r.
    + intros i Hi. destruct i as [|[|i]]; [exact Hs1 | exact Hs2 | lia].
    + intros i Hi. destruct i; [reflexivity | lia].
    + reflexivity.
  - rewrite length_app. lia.
  - now rewrite sent_after_calls.
  - reflexivity.
  - reflexivity.
  - reflexivity.
  - reflexivity.
  - intros Hd. unfold offsets_sent. rewrite sent_after_calls, map_app.
    cbn [requests_of_run seq map].
    now rewrite !(start_offset_query w _ Hd).
Qed.

Lemma getAllCustomers_two_pages_witness :
  exists w',
    getAllCustomers (script [full_page] last_page) 1 sample_world
    = Some (Return (repeat sample_customer 1000 ++ [sample_customer])%list, w')
    /\ map req_url (sent w')
       = ["https://sandbox-quickbooks.api.intuit.com/v3/company/4620816365199133610/query?query=SELECT * FROM Customer MAXRESULTS 1000";
          "https://sandbox-quickbooks.api.intuit.com/v3/company/4620816365199133610/query?query=SELECT * FROM Customer STARTPOSITION 1000 MAXRESULTS 1000"]
    /\ offsets_sent w' = [0; 1000].
Proof.
  destruct (getAllCustomers_two_pages (script [full_page] last_page) sample_world
              (repeat sample_customer 1000) [sample_customer] 1)
    as (w' & r1 & r2 & Hrun & _ & Hsent & _ & _ & Hu1 & Hu2 & Hoff).
  - reflexivity.
  - apply repeat_length.
  - reflexivity.
  - reflexivity.
  - reflexivity.
  - apply Nat.le_refl.
  - exists w'. split; [exact Hrun|]. split.
    + rewrite Hsent. cbn [sent sample_world List.app map]. rewrite Hu1, Hu2. reflexivity.
    + apply Hoff. reflexivity.
Defined.

(** C4 (as the code has it).  The response for an empty result set has a
    [QueryResponse] without a [Customer] field; spreading the missing field
    throws a [TypeError] out of [getAllCustomers], whatever the status of
    the response, and the [/customers] route answers 400.  Only when the
    response spells the empty set as an empty [Customer] array is an empty
    list returned. *)
Theorem getAllCustomers_empty_result_throws (st : Z) (fuel : nat) :
  getAllCustomers (fun _ _ => Resolved (mkResponse st empty_result)) fuel sample_world
  = Some (Throw (TypeError "undefined is not iterable"),
          after_calls sample_world [query_request sample_world first_query])
  /\ (exists w',
        getCustomers (fun _ _ => Resolved (mkResponse st empty_result)) fuel sample_world
        = Some (Return (mkRes 400 (SendError (TypeError "undefined is not iterable"))), w'))
  /\ getAllCustomers (fun _ _ => Resolved (mkResponse st empty_array_result)) fuel sample_world
    = Some (Return [], after_calls sample_world [query_request sample_world first_query]).
Proof.
  assert (H : getAllCustomers (fun _ _ => Resolved (mkResponse st empty_result))
                fuel sample_world
              = Some (Throw (TypeError "undefined is not iterable"),
                      after_calls sample_world [query_request sample_world first_query]))
    by reflexivity.
  split; [exact H|]. split; [|reflexivity].
  unfold getCustomers, try_catch. unfold bind at 1. rewrite H.
  eexists. reflexivity.
Qed.

(** C10 (as stated) fails: a page whose [maxResults] is the text [1000abc],
    which is not numeric, does not end the run.  [parseInt] reads the
    digits the text starts with, the value is 1000, and the loop asks for
    the next page. *)
Lemma non_numeric_maxResults_goes_on :
  ~ (forall (remote : remote_api) (w : world)
            (items : nat -> list value) (mrs : nat -> value) (k : nat),
        connected w = true ->
        (forall i, (i <= k)%nat -> serves remote w i (items i) (mrs i)) ->
        (forall i, (i < k)%nat -> parseInt (mrs i) = Num 1000) ->
        mrs k = VUndefined \/ numeric (mrs k) = false ->
        exists fuel,
          getAllCustomers remote fuel w
          = Some (Return (records_upto items k), after_calls w (requests_of_run w k))).
Proof.
  intros H.
  destruct (H (script [mislabelled_page] last_page) sample_world
              (fun _ => repeat sample_customer 1000) (fun _ => VStr "1000abc") O eq_refl)
    as (fuel & Hrun).
  - intros i Hi. replace i with O by lia. reflexivity.
  - intros i Hi. lia.
  - right. reflexivity.
  - destruct fuel as [|fuel]; [discriminate Hrun|].
    rewrite (getAllCustomers_stops (script [mislabelled_page] last_page) 1 sample_world
               (fun i => match i with
                         | O => repeat sample_customer 1000
                         | _ => [sample_customer]
                         end)
               (fun i => match i with O => VStr "1000abc" | _ => VNum 1 end) (S fuel))
      in Hrun.
    + apply (f_equal (fun r => match r with
                               | Some (Return l, _) => List.length l
                               | _ => O
                               end)) in Hrun.
      vm_compute in Hrun. discriminate Hrun.
    + reflexivity.
    + intros i Hi. destruct i as [|[|i]]; [reflexivity | reflexivity | lia].
    + intros i Hi. destruct i; [reflexivity | lia].
    + reflexivity.
    + lia.
Qed.

(** C10 (amended).  When the pages before page [k] report 1000 and page [k]
    carries its records and a [maxResults] that is missing or that
    [parseInt] reads as [NaN], the run stops after page [k] and returns the
    records of pages [0 .. k], with [k + 1] requests sent; no page had
    reported fewer than 1000. *)
Theorem getAllCustomers_stops_on_missing_maxResults (remote : remote_api) (w : world)
    (items : nat -> list value) (mrs : nat -> value) (k fuel : nat) :
  connected w = true ->
  (forall i, (i <= k)%nat -> serves remote w i (items i) (mrs i)) ->
  (forall i, (i < k)%nat -> parseInt (mrs i) = Num 1000) ->
  mrs k = VUndefined \/ parseInt (mrs k) = NaN ->
  (k <= fuel)%nat ->
  getAllCustomers remote fuel w
  = Some (Return (records_upto items k), after_calls w (requests_of_run w k))
  /\ List.length (requests_of_run w k) = S k
  /\ ~ (exists i z, (i <= k)%nat /\ parseInt (mrs i) = Num z /\ z < 1000).
Proof.
  intros Hc Hserve Hfull Hk Hfuel.
  assert (Hnan : parseInt (mrs k) = NaN).
  { destruct Hk as [-> | Hk]; [reflexivity | exact Hk]. }
  split; [|split].
  - apply (getAllCustomers_stops remote k w items mrs fuel); auto.
    now rewrite Hnan.
  - unfold requests_of_run. now rewrite length_map, length_seq.
  - intros (i & z & Hi & Hz & Hlt).
    destruct (Nat.eq_dec i k) as [-> | Hne].
    + rewrite Hnan in Hz. discriminate.
    + rewrite Hfull in Hz by lia. injection Hz as <-. lia.
Qed.

Lemma getAllCustomers_stops_on_missing_maxResults_witness :
  getAllCustomers (script [full_page] uncounted_page) 1 sample_world
  = Some (Return (records_upto (fun _ => repeat sample_customer 1000) 1),
          after_calls sample_world (requests_of_run sample_world 1)).
Proof.
  apply (getAllCustomers_stops_on_missing_maxResults
           (script [full_page] uncounted_page) sample_world
           (fun _ => repeat sample_customer 1000)
           (fun i => match i with O => VNum 1000 | _ => VUndefined end) 1 1).
  - reflexivity.
  - intros i Hi. destruct i as [|[|i]]; reflexivity.
  - intros i Hi. destruct i; [reflexivity | lia].
  - left. reflexivity.
  - apply Nat.le_refl.
Defined.

(* ================================================================== *)
(** ** Fault normalisation in [quickbooks]                              *)
(* ================================================================== *)

Lemma get_prop (v : value) (k : string) :
  v <> VNull -> v <> VUndefined -> get v k = Return (prop v k).
Proof.
  intros Hn Hu. unfold prop.
  destruct v; try reflexivity; contradiction.
Qed.

Lemma truthy_prop_get (v : value) (k : string) :
  truthy (prop v k) = true -> get v k = Return (prop v k).
Proof.
  unfold prop. destruct v; simpl; try discriminate; reflexivity.
Qed.

(** C5.  Whatever the status code of the response: when its parsed body
    carries a fault marker (a truthy [fault]), [quickbooks] throws the
    error made from [fault.error] and does not return the body; when the
    body carries none, [quickbooks] returns the body. *)
Theorem quickbooks_fault_is_error (remote : remote_api) (a : qb_args) (w : world)
    (st : Z) (b : value) :
  connected w = true ->
  remote (List.length (sent w)) (request_for w a) = Resolved (mkResponse st b) ->
  (has_fault (mkResponse st b) = true ->
   quickbooks remote a w
   = Some (Throw (new_Error (prop (prop b "fault") "error")),
           after_calls w [request_for w a]))
  /\ (has_fault (mkResponse st b) = false -> b <> VNull -> b <> VUndefined ->
      quickbooks remote a w = Some (Return b, after_calls w [request_for w a])).
Proof.
  intros Hc Hr. unfold has_fault. cbn [json]. split.
  - intros Hf.
    rewrite (quickbooks_resolved remote a w _ (prop b "fault") Hc Hr
               (truthy_prop_get b "fault" Hf)).
    now rewrite Hf.
  - intros Hf Hn Hu.
    rewrite (quickbooks_resolved remote a w _ (prop b "fault") Hc Hr
               (get_prop b "fault" Hn Hu)).
    now rewrite Hf.
Qed.

Lemma quickbooks_fault_is_error_witness :
  quickbooks (fun _ _ => Resolved (mkResponse 200 fault_body))
    (query_args first_query) sample_world
  = Some (Throw (new_Error fault_detail),
          after_calls sample_world [query_request sample_world first_query])
  /\ quickbooks (fun _ _ => Resolved (mkResponse 200 last_page))
       (query_args first_query) sample_world
     = Some (Return last_page,
             after_calls sample_world [query_request sample_world first_query]).
Proof.
  split.
  - apply (quickbooks_fault_is_error (fun _ _ => Resolved (mkResponse 200 fault_body))
             (query_args first_query) sample_world 200 fault_body eq_refl eq_refl).
    reflexivity.
  - apply (quickbooks_fault_is_error (fun _ _ => Resolved (mkResponse 200 last_page))
             (query_args first_query) sample_world 200 last_page eq_refl eq_refl).
    + reflexivity.
    + discriminate.
    + discriminate.
Defined.

(* ================================================================== *)
(** ** The refresh timer                                                *)
(* ================================================================== *)

(** C6 (as the code has it).  A refresh that fails inside the timer
    callback is not caught: the app logs nothing and the rejection is left
    to the runtime.  A runtime that raises unhandled rejections ends the
    process, and no later tick refreshes; one that only warns goes on.  The
    route handler [doRefreshToken] does catch the same failure, logs it
    and answers 401. *)
Theorem scheduled_refresh_failure_unhandled (w : world) (e : thrown)
    (now : Z) (warnings : list thrown) :
  interval_ms = 30 * 60 * 1000
  /\ spawn_refreshToken now (RefreshRejected e) w = mkDetached w (Some e)
  /\ timer_tick ThrowMode now (RefreshRejected e) (Running w warnings) = Exited 1 w
  /\ (forall now' ro, timer_tick ThrowMode now' ro (Exited 1 w) = Exited 1 w)
  /\ timer_tick WarnMode now (RefreshRejected e) (Running w warnings)
     = Running w (warnings ++ [e])%list
  /\ doRefreshToken now (RefreshRejected e) w
     = Some (Return (mkRes 401 (SendJson (VObj [("error", VStr (Error_toString e))]))),
             with_logged
               (logged w ++ [LogError (app_name w) (DetailText (Error_toString e))])%list w).
Proof. repeat split. Qed.

(* ================================================================== *)
(** ** The client's token                                               *)
(* ================================================================== *)

(** The token the client makes of a credential is the credential with its
    defaults filled in. *)
Lemma or_else_text (s : string) : or_else (VStr s) (VStr "") = VStr s.
Proof. unfold or_else. cbn [truthy]. now destruct (String.eqb_spec s "") as [-> | _]. Qed.

Lemma or_else_number (n d : Z) : or_else (VNum n) (VNum d) = VNum (if n =? 0 then d else n).
Proof. unfold or_else. cbn [truthy]. now destruct (n =? 0). Qed.

Lemma oauth_setToken_credential (now : Z) (c : Credential) :
  oauth_setToken now (credential_value c) = credential_value (with_defaults now c).
Proof.
  unfold oauth_setToken.
  change (or_else (credential_value c) (VObj [])) with (credential_value c).
  cbn [credential_value get lookup String.eqb Ascii.eqb Bool.eqb].
  rewrite !or_else_text, !or_else_number.
  unfold with_defaults.
  cbn [realmId token_type access_token refresh_token expires_in
       x_refresh_token_expires_in id_token latency createdAt].
  now destruct (expires_in c), (x_refresh_token_expires_in c).
Qed.

Lemma with_defaults_present (now : Z) (c : Credential) :
  fully_present c -> with_defaults now c = c.
Proof.
  intros [Hl Hc]. unfold with_defaults.
  destruct (Z.eqb_spec (latency c) 0); [contradiction|].
  destruct (Z.eqb_spec (createdAt c) 0); [contradiction|].
  now destruct c.
Qed.

Lemma stringify_credential (c : Credential) :
  JSON.stringify (credential_value c) = Some (stored_text c).
Proof. reflexivity. Qed.

Lemma setAccessToken_saving (now : Z) (c : Credential) (w : world) :
  setAccessToken now (credential_value c) w = Some (Return tt, saving now c w).
Proof.
  unfold setAccessToken, bind, modify.
  now rewrite stringify_credential, oauth_setToken_credential.
Qed.

Lemma refreshToken_saving (now : Z) (c : Credential) (w : world) :
  refreshToken now (Refreshed (credential_value c)) w
  = Some (Return (credential_value c),
          with_logged
            (logged w ++ [LogInfo (app_name w) "Successfully refreshed access token!"])%list
            (saving now c w)).
Proof.
  unfold refreshToken. unfold bind at 1. unfold oauth_refresh, ret.
  unfold bind at 1. now rewrite setAccessToken_saving.
Qed.

(* ================================================================== *)
(** ** The status route                                                 *)
(* ================================================================== *)

(** C7 (as the code has it).  After a credential has been set, the client
    holds it (a [latency] or [createdAt] of 0 replaced by its default), and
    [qbStatus] still answers [appAuthorized: false] and [oauthToken: null]:
    the reply is a constant.  The handler [getToken], for which no route is
    registered, does answer with the token held. *)
Theorem qbStatus_ignores_credential (c : Credential) (now : Z) (w : world) :
  exists w',
    setAccessToken now (credential_value c) w = Some (Return tt, w')
    /\ token (oauth w') = credential_value (with_defaults now c)
    /\ qbStatus w'
       = Some (Return (mkRes 200 (SendJson (VObj [("appAuthorized", VBool false);
                                                  ("oauthToken", VNull)]))), w')
    /\ getToken w'
       = Some (Return (mkRes 200 (SendJson (credential_value (with_defaults now c)))), w').
Proof.
  exists (saving now c w). split; [apply setAccessToken_saving|]. repeat split.
Qed.

(* ================================================================== *)
(** ** Persistence of the credential                                    *)
(* ================================================================== *)

Lemma credential_flat (c : Credential) :
  match credential_value c with
  | VObj fields => flat fields
  | _ => False
  end.
Proof.
  cbn [credential_value]. split.
  - cbn [map fst]. repeat constructor; cbn [In]; intuition discriminate.
  - repeat constructor.
Qed.

Lemma read_stored_token_file (w : world) (text : string) (c : completion value) :
  tmpfile w = Some text ->
  JSON.parse text = Some c ->
  read_stored_token w = Some (c, w).
Proof.
  intros H Hp. unfold read_stored_token, bind, readFileSync, lift_partial.
  rewrite H, Hp. now destruct c.
Qed.

Lemma parse_stored_text (c : Credential) :
  JSON.parse (stored_text c) = Some (Return (credential_value c)).
Proof.
  pose proof (credential_flat c) as Hflat.
  pose proof (stringify_credential c) as Hs.
  destruct (credential_value c) as [| | | | | |fields]; try contradiction.
  destruct (parse_stringify_flat fields Hflat) as (text & Hs' & Hp).
  rewrite Hs in Hs'. injection Hs' as <-. exact Hp.
Qed.

Lemma read_stored_credential (c : Credential) (w : world) :
  tmpfile w = Some (stored_text c) ->
  read_stored_token w = Some (Return (credential_value c), w).
Proof.
  intros H. apply (read_stored_token_file w _ _ H), parse_stored_text.
Qed.

Lemma load_stored_credential (now : Z) (c : Credential) (w : world) :
  tmpfile w = Some (stored_text c) ->
  load_stored_token now w
  = Some (Return tt,
          saving now c
            (with_logged
               (logged w ++ [LogSilly "Read locally stored QBO access token"])%list w)).
Proof.
  intros H. unfold load_stored_token, try_catch. unfold bind at 1.
  rewrite (read_stored_credential c w H).
  unfold bind at 1. unfold log, modify.
  now rewrite setAccessToken_saving.
Qed.

(** The only write in flight ends with its data in the file. *)
Lemma write_ends_saving (now : Z) (c : Credential) (w : world) :
  writing w = [] ->
  write_ends 0 WriteDone (saving now c w)
  = with_tmpfile (Some (stored_text c))
      (with_oauth (mkOAuth (credential_value (with_defaults now c)) (environment (oauth w))) w).
Proof.
  intros H. unfold write_ends, saving. cbn [writing with_writing with_oauth].
  rewrite H. cbn [List.app nth_error firstn skipn].
  unfold with_tmpfile, with_writing, with_oauth. cbn. now rewrite H.
Qed.

(** C8.  A credential is saved by [setAccessToken]: the write of its text
    is started and, no other write being in flight, ends with the text in
    the file.  The start-up load of the next process reads the file back as
    the same token object, every field with the value that was saved, and
    hands it to the client.  The client of that process holds every field
    as saved when the credential is fully present; a [latency] or a
    [createdAt] of 0 counts as missing there and takes its default. *)
Theorem credential_round_trip (c : Credential) (now now' : Z) (w : world) :
  writing w = [] ->
  exists text w1 w2 w3,
    JSON.stringify (credential_value c) = Some text
    /\ setAccessToken now (credential_value c) w = Some (Return tt, w1)
    /\ writing w1 = [text]
    /\ w2 = restart (write_ends 0 WriteDone w1)
    /\ tmpfile w2 = Some text
    /\ read_stored_token w2 = Some (Return (credential_value c), w2)
    /\ load_stored_token now' w2 = Some (Return tt, w3)
    /\ token (oauth w3) = credential_value (with_defaults now' c)
    /\ (fully_present c -> token (oauth w3) = credential_value c)
    /\ logged w3 = [LogSilly "Read locally stored QBO access token"].
Proof.
  intros Hw.
  exists (stored_text c), (saving now c w),
         (restart (write_ends 0 WriteDone (saving now c w))).
  assert (Hfile : tmpfile (restart (write_ends 0 WriteDone (saving now c w)))
                  = Some (stored_text c)).
  { now rewrite (write_ends_saving now c w Hw). }
  eexists.
  split; [apply stringify_credential|].
  split; [apply setAccessToken_saving|].
  split; [unfold saving; cbn [writing with_writing with_oauth]; now rewrite Hw|].
  split; [reflexivity|].
  split; [exact Hfile|].
  split; [now apply read_stored_credential|].
  split; [now apply (load_stored_credential now' c)|].
  split; [reflexivity|].
  split; [|reflexivity].
  intros Hc. cbn [saving token oauth with_writing with_oauth].
  now rewrite (with_defaults_present now' c Hc).
Qed.

Lemma credential_round_trip_witness :
  exists text w1 w3,
    setAccessToken 1730384727000 (credential_value sample_credential) sample_world
    = Some (Return tt, w1)
    /\ writing w1 = [text]
    /\ load_stored_token 1730388327000 (restart (write_ends 0 WriteDone w1))
       = Some (Return tt, w3)
    /\ token (oauth w3) = credential_value sample_credential.
Proof.
  destruct (credential_round_trip sample_credential 1730384727000 1730388327000
              sample_world eq_refl)
    as (text & w1 & w2 & w3 & _ & Hset & Hw & H2 & _ & _ & Hload & _ & Hfp & _).
  exists text, w1, w3. subst w2.
  split; [exact Hset|]. split; [exact Hw|]. split; [exact Hload|].
  apply Hfp. split; discriminate.
Defined.

(* ================================================================== *)
(** ** The routes and their guard                                       *)
(* ================================================================== *)

Lemma decodeUserToken_no_token (verify : jwt_verify) (req : request) :
  no_token req = true ->
  decodeUserToken verify req = Responded (mkRes 401 (SendText "Unauthorized")).
Proof.
  unfold no_token, decodeUserToken.
  destruct (header_token req) as [[|c s]|]; [reflexivity | discriminate | reflexivity].
Qed.

Lemma decodeUserToken_with_token (verify : jwt_verify) (req : request) :
  no_token req = false ->
  forall x, decodeUserToken verify req <> Responded x.
Proof.
  unfold no_token, decodeUserToken.
  destruct (header_token req) as [[|c s]|]; try discriminate.
  intros _ x.
  destruct (verify (String c s)) as [payload|e]; [|discriminate].
  destruct (get payload "data") as [data|e]; [|discriminate].
  destruct (get data "uuid") as [uuid|e]; [|discriminate].
  destruct (truthy uuid); discriminate.
Qed.

(** On a guarded route the router does what the guard says. *)
Lemma dispatch_guarded (verify : jwt_verify) (r : route) (req : request) :
  In r routes -> route_path r <> "/callback" ->
  http_method req = "GET" -> path req = route_path r ->
  dispatch verify req
  = match decodeUserToken verify req with
    | Responded x => Replied x
    | NextError e => Failed e
    | Next req' => Invoked (route_handler r) req'
    end.
Proof.
  intros Hin Hcb Hm Hp. unfold dispatch. rewrite Hm, Hp.
  unfold routes in Hin. cbn [In] in Hin.
  repeat (destruct Hin as [<- | Hin];
          [first [ exfalso; apply Hcb; reflexivity | reflexivity ] |]).
  contradiction.
Qed.

(** C9 (as stated) fails: a request whose authorization header is not a
    bearer header, [Basic abc.def.ghi], is not answered 401 on a guarded
    route; the guard hands its second word to [jwt.verify], and when that
    accepts it the handler runs. *)
Lemma guard_ignores_scheme :
  ~ (forall (verify : jwt_verify) (r : route) (req : request),
        In r routes -> route_path r <> "/callback" ->
        http_method req = "GET" -> path req = route_path r ->
        bearer_header req = false ->
        dispatch verify req = Replied (mkRes 401 (SendText "Unauthorized"))
        /\ forall h req', dispatch verify req <> Invoked h req').
Proof.
  intros H.
  destruct (H (fun _ => Return (VObj [("data", VObj [("uuid", VStr "u-1")])]))
              (mkRoute "/customers" [DecodeUserToken] GetCustomers)
              (mkReq "GET" "/customers" (Some "Basic abc.def.ghi") VUndefined))
    as [Hd _].
  - cbn. tauto.
  - discriminate.
  - reflexivity.
  - reflexivity.
  - reflexivity.
  - discriminate Hd.
Qed.

(** C9 (amended).  Every registered route other than [/callback] has the
    identity guard before its handler.  A request that carries no token (no
    [authorization] header, an empty one, or one without a second word) is
    answered 401 [Unauthorized] and the handler is not called; a request
    whose header has a second word is never answered 401 by the guard,
    whatever its first word: it goes to [jwt.verify].  A request for
    [/callback] reaches [intuitCallback] with no guard in between. *)
Theorem routes_guarded_except_callback (verify : jwt_verify) :
  (forall r req,
      In r routes -> route_path r <> "/callback" ->
      http_method req = "GET" -> path req = route_path r ->
      route_guards r = [DecodeUserToken]
      /\ (no_token req = true ->
          dispatch verify req = Replied (mkRes 401 (SendText "Unauthorized"))
          /\ forall h req', dispatch verify req <> Invoked h req')
      /\ (no_token req = false ->
          (forall x, dispatch verify req <> Replied x)
          /\ exists tok, header_token req = Some tok /\ tok <> EmptyString
                         /\ match verify tok with
                            | Throw err => dispatch verify req = Failed err
                            | Return _ =>
                                (exists req', dispatch verify req
                                              = Invoked (route_handler r) req')
                                \/ (exists err, dispatch verify req = Failed err)
                            end))
  /\ (forall req,
        http_method req = "GET" -> path req = "/callback" ->
        dispatch verify req = Invoked IntuitCallback req).
Proof.
  split.
  - intros r req Hin Hcb Hm Hp.
    pose proof (dispatch_guarded verify r req Hin Hcb Hm Hp) as Hd.
    split; [|split].
    + unfold routes in Hin. cbn [In] in Hin.
      repeat (destruct Hin as [<- | Hin];
              [first [ exfalso; apply Hcb; reflexivity | reflexivity ] |]).
      contradiction.
    + intros Hno. rewrite Hd, (decodeUserToken_no_token verify req Hno).
      split; [reflexivity | discriminate].
    + intros Hno. split.
      * intros x. rewrite Hd.
        pose proof (decodeUserToken_with_token verify req Hno) as Hg.
        destruct (decodeUserToken verify req) as [y|e|req'];
          [exfalso; now apply (Hg y) | discriminate | discriminate].
      * rewrite Hd. unfold no_token in Hno. unfold decodeUserToken.
        destruct (header_token req) as [[|c t]|]; try discriminate.
        exists (String c t). split; [reflexivity|]. split; [discriminate|].
        destruct (verify (String c t)) as [payload|err]; [|reflexivity].
        destruct (get payload "data") as [data|e]; [|right; now exists e].
        destruct (get data "uuid") as [uuid|e]; [|right; now exists e].
        left. destruct (truthy uuid); eexists; reflexivity.
  - intros req Hm Hp. unfold dispatch. rewrite Hm, Hp. reflexivity.
Qed.

Lemma routes_guarded_except_callback_witness :
  dispatch (fun _ => Return (VObj [("data", VObj [("uuid", VStr "u-1")])]))
    (mkReq "GET" "/customers" None VUndefined)
  = Replied (mkRes 401 (SendText "Unauthorized"))
  /\ dispatch (fun _ => Return (VObj [("data", VObj [("uuid", VStr "u-1")])]))
       (mkReq "GET" "/callback" None VUndefined)
     = Invoked IntuitCallback (mkReq "GET" "/callback" None VUndefined).
Proof.
  destruct (routes_guarded_except_callback
              (fun _ => Return (VObj [("data", VObj [("uuid", VStr "u-1")])])))
    as [Hguard Hcallback].
  split.
  - apply (Hguard (mkRoute "/customers" [DecodeUserToken] GetCustomers)
             (mkReq "GET" "/customers" None VUndefined)).
    + cbn. tauto.
    + discriminate.
    + reflexivity.
    + reflexivity.
    + reflexivity.
  - apply Hcallback; reflexivity.
Defined.

(* ================================================================== *)
(** ** What the gateway leaves untouched                                *)
(* ================================================================== *)

Lemma frame_refl (w : world) : frame w w.
Proof.
  repeat split; try (exists []; now rewrite List.app_nil_r).
Qed.

Lemma frame_trans (w1 w2 w3 : world) : frame w1 w2 -> frame w2 w3 -> frame w1 w3.
Proof.
  intros (Hn & Ho & Hf & Hw & (r & Hr) & (l & Hl))
         (Hn' & Ho' & Hf' & Hw' & (r' & Hr') & (l' & Hl')).
  repeat split; try congruence.
  - exists (r ++ r')%list. now rewrite Hr', Hr, List.app_assoc.
  - exists (l ++ l')%list. now rewrite Hl', Hl, List.app_assoc.
Qed.

Section Preserves.
Context {A B : Type}.

Lemma preserves_ret (a : A) : preserves (ret a).
Proof. intros w. apply frame_refl. Qed.

Lemma preserves_throw (e : thrown) : preserves (@throw A e).
Proof. intros w. apply frame_refl. Qed.

Lemma preserves_lift (c : completion A) : preserves (lift c).
Proof. intros w. apply frame_refl. Qed.

Lemma preserves_gets (f : world -> A) : preserves (gets f).
Proof. intros w. apply frame_refl. Qed.

Lemma preserves_bind (m : M A) (k : A -> M B) :
  preserves m -> (forall a, preserves (k a)) -> preserves (bind m k).
Proof.
  intros Hm Hk w. unfold bind. specialize (Hm w).
  destruct (m w) as [[[a|e] w1]|]; [|exact Hm|exact I].
  specialize (Hk a w1). destruct (k a w1) as [[c w2]|]; [|exact I].
  eapply frame_trans; eassumption.
Qed.

Lemma preserves_try_catch (m : M A) (h : thrown -> M A) :
  preserves m -> (forall e, preserves (h e)) -> preserves (try_catch m h).
Proof.
  intros Hm Hh w. unfold try_catch. specialize (Hm w).
  destruct (m w) as [[[a|e] w1]|]; [exact Hm| |exact I].
  specialize (Hh e w1). destruct (h e w1) as [[c w2]|]; [|exact I].
  eapply frame_trans; eassumption.
Qed.
End Preserves.

Lemma preserves_log (e : log_entry) : preserves (log e).
Proof.
  intros w. unfold log, modify.
  split; [reflexivity|]. split; [reflexivity|]. split; [reflexivity|].
  split; [reflexivity|]. split.
  - exists []. cbn. now rewrite List.app_nil_r.
  - now exists [e].
Qed.

Lemma preserves_makeApiCall (remote : remote_api) (req : api_request) :
  preserves (makeApiCall remote req).
Proof.
  intros w. unfold makeApiCall.
  destruct (remote _ req);
    (split; [reflexivity|]; split; [reflexivity|]; split; [reflexivity|];
     split; [reflexivity|]; split;
     [now exists [req] | exists []; cbn; now rewrite List.app_nil_r]).
Qed.

Create HintDb frame_db.
#[local] Hint Resolve preserves_ret preserves_throw preserves_lift preserves_gets
  preserves_log preserves_makeApiCall : frame_db.

Ltac keeps_frame :=
  repeat first
    [ solve [auto with frame_db]
    | apply preserves_try_catch; [|intro]
    | apply preserves_bind; [|intro]
    | match goal with
      | |- preserves (if ?b then _ else _) => destruct b
      | |- preserves (let _ := _ in _) => cbv zeta
      end ].

Lemma preserves_quickbooks (remote : remote_api) (a : qb_args) :
  preserves (quickbooks remote a).
Proof. unfold quickbooks. keeps_frame. Qed.

Lemma preserves_push_customers (customers : list value) (results : value) :
  preserves (push_customers customers results).
Proof. unfold push_customers. keeps_frame. Qed.

Lemma preserves_parse_maxResults (results : value) :
  preserves (parse_maxResults results).
Proof. unfold parse_maxResults. keeps_frame. Qed.

#[local] Hint Resolve preserves_quickbooks preserves_push_customers
  preserves_parse_maxResults : frame_db.

Lemma preserves_customers_loop (remote : remote_api) :
  forall fuel customers maxResults,
    preserves (customers_loop remote fuel customers maxResults).
Proof.
  induction fuel as [|fuel IH]; intros customers maxResults;
    cbn [customers_loop]; destruct (strict_eq maxResults (Num 1000)).
  - intros w. exact I.
  - keeps_frame.
  - keeps_frame.
  - keeps_frame.
Qed.

(** X1.  [getAllCustomers], like every [quickbooks] call it makes, only
    reads the credential: however the run ends, the client's token and
    environment, the token file and the app's name are as before, and the
    requests sent and the log have only grown. *)
Theorem getAllCustomers_keeps_credential (remote : remote_api) (fuel : nat) (w : world) :
  match getAllCustomers remote fuel w with
  | Some (_, w') => frame w w'
  | None => True
  end.
Proof.
  revert w. change (preserves (getAllCustomers remote fuel)).
  unfold getAllCustomers. keeps_frame. apply preserves_customers_loop.
Qed.

(* ================================================================== *)
(** ** How the gateway fails                                            *)
(* ================================================================== *)

Lemma quickbooks_not_connected (remote : remote_api) (a : qb_args) (w : world)
    (companyID : value) :
  get (token (oauth w)) "realmId" = Return companyID ->
  truthy companyID = false ->
  quickbooks remote a w = Some (Throw no_company_error, w).
Proof.
  intros Hg Ht.
  unfold quickbooks, try_catch, bind, gets, lift, ret, throw.
  rewrite Hg, Ht. reflexivity.
Qed.

(** A call that the remote API rejects, or answers with a fault or with a
    body that cannot be inspected, throws the error [call_error] names,
    after the request went out. *)
Lemma quickbooks_fails (remote : remote_api) (a : qb_args) (w : world) (e : thrown) :
  connected w = true ->
  call_error (remote (List.length (sent w)) (request_for w a)) = Some e ->
  quickbooks remote a w = Some (Throw e, after_calls w [request_for w a]).
Proof.
  intros Hc He.
  unfold quickbooks, try_catch, bind, gets, lift, log, modify, makeApiCall, ret, throw.
  rewrite (connected_get w Hc).
  unfold connected in Hc. rewrite Hc.
  cbn [sent with_logged with_sent oauth logged app_name tmpfile].
  unfold request_for in He. unfold call_error in He.
  destruct (remote _ _) as [r|e0].
  - destruct (get (json r) "fault") as [f|e1] eqn:Hf.
    + destruct (truthy f) eqn:Ht; [|discriminate].
      injection He as <-.
      rewrite (truthy_get f "error" Ht). reflexivity.
    + injection He as <-.
      destruct (json r); try discriminate Hf; injection Hf as <-; reflexivity.
  - injection He as <-. unfold rethrown.
    destruct (truthy (lookup "error" (err_props e0))); reflexivity.
Qed.

Lemma quickbooks_total (remote : remote_api) (a : qb_args) (w : world) :
  exists c w', quickbooks remote a w = Some (c, w').
Proof.
  unfold quickbooks, try_catch, bind, gets, lift, log, modify, makeApiCall, ret, throw.
  destruct (get (token (oauth w)) "realmId") as [cid|e].
  - destruct (truthy cid).
    + cbn [sent with_logged with_sent oauth logged app_name tmpfile].
      destruct (remote _ _) as [r|e0].
      * destruct (get (json r) "fault") as [f|e1].
        -- destruct (truthy f); [destruct (get f "error") as [x|e1]|].
           ++ eexists; eexists; reflexivity.
           ++ destruct (truthy (lookup "error" (err_props e1))); eexists; eexists; reflexivity.
           ++ eexists; eexists; reflexivity.
        -- destruct (truthy (lookup "error" (err_props e1))); eexists; eexists; reflexivity.
      * destruct (truthy (lookup "error" (err_props e0))); eexists; eexists; reflexivity.
    + eexists; eexists; reflexivity.
  - destruct (truthy (lookup "error" (err_props e))); eexists; eexists; reflexivity.
Qed.

Section Failing.
Variable remote : remote_api.

Lemma customers_loop_fails :
  forall (k : nat) (w : world) (acc : list value)
         (items : nat -> list value) (mrs : nat -> value) (fuel : nat) (e : thrown),
    connected w = true ->
    (forall i, (i < k)%nat ->
               answers remote w (next_query (Num 1000)) i (items i) (mrs i)) ->
    (forall i, (i < k)%nat -> parseInt (mrs i) = Num 1000) ->
    call_error (remote (List.length (sent w) + k)%nat
                       (query_request w (next_query (Num 1000)))) = Some e ->
    (k < fuel)%nat ->
    customers_loop remote fuel acc (Num 1000) w
    = Some (Throw e,
            after_calls w (repeat (query_request w (next_query (Num 1000))) (S k))).
Proof.
  induction k as [|k IH]; intros w acc items mrs fuel e Hc Hserve Hfull He Hfuel;
    (destruct fuel as [|fuel]; [lia|]).
  - rewrite Nat.add_0_r in He.
    cbn [customers_loop strict_eq]. change (1000 =? 1000) with true. cbv iota.
    unfold bind at 1.
    now rewrite (quickbooks_fails remote _ w e Hc He).
  - rewrite (customers_loop_step remote fuel acc w _ _ Hc (Hserve O (Nat.lt_0_succ _))).
    rewrite (Hfull O) by lia.
    rewrite (IH _ _ (fun i => items (S i)) (fun i => mrs (S i)) fuel e).
    + now rewrite after_calls_app, query_request_after_calls.
    + now rewrite connected_after_calls.
    + intros i Hi. apply answers_after_call, Hserve. lia.
    + intros i Hi. apply Hfull. lia.
    + rewrite sent_after_calls, length_app, query_request_after_calls. cbn [List.length].
      now replace (List.length (sent w) + 1 + k)%nat
        with (List.length (sent w) + S k)%nat by lia.
    + lia.
Qed.

Lemma getAllCustomers_fails (k : nat) (w : world)
    (items : nat -> list value) (mrs : nat -> value) (fuel : nat) (e : thrown) :
  connected w = true ->
  (forall i, (i < k)%nat -> serves remote w i (items i) (mrs i)) ->
  (forall i, (i < k)%nat -> parseInt (mrs i) = Num 1000) ->
  call_error (remote (List.length (sent w) + k)%nat (query_request w (page_query k)))
  = Some e ->
  (k <= fuel)%nat ->
  getAllCustomers remote fuel w = Some (Throw e, after_calls w (requests_of_run w k)).
Proof.
  intros Hc Hserve Hfull He Hfuel.
  rewrite requests_of_run_S.
  destruct k as [|k].
  - rewrite Nat.add_0_r in He. cbn [page_query] in He.
    unfold getAllCustomers. unfold bind at 1.
    now rewrite (quickbooks_fails remote (query_args first_query) w e Hc He).
  - rewrite (getAllCustomers_first remote fuel w (items O) (mrs O) Hc
               (Hserve O (Nat.lt_0_succ _))).
    rewrite (Hfull O) by lia. cbn [strict_eq]. change (1000 =? 1000) with true. cbv iota.
    rewrite (customers_loop_fails k _ (items O)
               (fun i => items (S i)) (fun i => mrs (S i)) fuel e).
    + now rewrite after_calls_app, query_request_after_calls.
    + now rewrite connected_after_calls.
    + intros i Hi. apply answers_after_call, (Hserve (S i)). lia.
    + intros i Hi. apply Hfull. lia.
    + rewrite sent_after_calls, length_app, query_request_after_calls. cbn [List.length].
      now replace (List.length (sent w) + 1 + k)%nat
        with (List.length (sent w) + S k)%nat by lia.
    + lia.
Qed.
End Failing.

(** X2.  When the client's token has no truthy [realmId], [quickbooks]
    throws "No company ID. Not connected to QB?" and neither logs nor sends
    anything; [getAllCustomers] fails the same way before its first
    request, and the [/customers] route answers 400 with that error. *)
Theorem not_connected_sends_nothing (remote : remote_api) (a : qb_args) (fuel : nat)
    (w : world) (companyID : value) :
  get (token (oauth w)) "realmId" = Return companyID ->
  truthy companyID = false ->
  quickbooks remote a w = Some (Throw no_company_error, w)
  /\ getAllCustomers remote fuel w = Some (Throw no_company_error, w)
  /\ exists w',
       getCustomers remote fuel w
       = Some (Return (mkRes 400 (SendError no_company_error)), w')
       /\ sent w' = sent w.
Proof.
  intros Hg Ht.
  assert (Hq : forall b, quickbooks remote b w = Some (Throw no_company_error, w))
    by (intros b; now apply quickbooks_not_connected with (companyID := companyID)).
  assert (Hall : getAllCustomers remote fuel w = Some (Throw no_company_error, w)).
  { unfold getAllCustomers. unfold bind at 1. now rewrite Hq. }
  split; [apply Hq|]. split; [exact Hall|].
  unfold getCustomers, try_catch. unfold bind at 1. rewrite Hall.
  eexists. split; reflexivity.
Qed.

Lemma not_connected_sends_nothing_witness :
  getAllCustomers (script [] full_page) 5 (restart sample_world)
  = Some (Throw no_company_error, restart sample_world).
Proof.
  apply (not_connected_sends_nothing (script [] full_page) (query_args first_query) 5
           (restart sample_world) VUndefined).
  - reflexivity.
  - reflexivity.
Defined.

(** X3.  When [makeApiCall] rejects, [quickbooks] throws after the request
    went out.  A rejection that carries a truthy [error] property is
    replaced by a fresh [Error] whose message is that property and which
    has no other property, so whatever else the rejection carried (a
    [Fault], the response) is lost; a rejection without it is thrown
    unchanged. *)
Theorem quickbooks_rejection (remote : remote_api) (a : qb_args) (w : world) (e : thrown) :
  connected w = true ->
  remote (List.length (sent w)) (request_for w a) = Rejected e ->
  quickbooks remote a w = Some (Throw (rethrown e), after_calls w [request_for w a])
  /\ (truthy (lookup "error" (err_props e)) = true ->
      err_message (rethrown e) = ToString (lookup "error" (err_props e))
      /\ err_props (rethrown e) = [])
  /\ (truthy (lookup "error" (err_props e)) = false -> rethrown e = e).
Proof.
  intros Hc Hr. split; [|split].
  - apply quickbooks_fails; [exact Hc|]. now rewrite Hr.
  - intros Ht. unfold rethrown. rewrite Ht. unfold new_Error. cbn.
    destruct (lookup "error" (err_props e)); try discriminate Ht; now split.
  - intros Ht. unfold rethrown. now rewrite Ht.
Qed.

Lemma quickbooks_rejection_witness :
  quickbooks (fun _ _ => Rejected library_error) (query_args first_query) sample_world
  = Some (Throw (mkThrown "Error" "Unauthorized" []),
          after_calls sample_world [query_request sample_world first_query]).
Proof.
  apply (quickbooks_rejection (fun _ _ => Rejected library_error)
           (query_args first_query) sample_world library_error eq_refl eq_refl).
Defined.

(** X4.  When the call for page [k] fails after [k] full pages,
    [getAllCustomers] throws that call's error after [k + 1] requests: the
    records of the pages already fetched are not returned, and the
    [/customers] route answers 400. *)
Theorem getAllCustomers_drops_pages_on_failure (remote : remote_api) (w : world)
    (items : nat -> list value) (mrs : nat -> value) (k fuel : nat) (e : thrown) :
  connected w = true ->
  (forall i, (i < k)%nat -> serves remote w i (items i) (mrs i)) ->
  (forall i, (i < k)%nat -> parseInt (mrs i) = Num 1000) ->
  call_error (remote (List.length (sent w) + k)%nat (query_request w (page_query k)))
  = Some e ->
  (k <= fuel)%nat ->
  getAllCustomers remote fuel w = Some (Throw e, after_calls w (requests_of_run w k))
  /\ List.length (requests_of_run w k) = S k
  /\ exists r w',
       getCustomers remote fuel w = Some (Return r, w') /\ res_status r = 400.
Proof.
  intros Hc Hserve Hfull He Hfuel.
  pose proof (getAllCustomers_fails remote k w items mrs fuel e Hc Hserve Hfull He Hfuel)
    as Hall.
  split; [exact Hall|]. split.
  - unfold requests_of_run. now rewrite length_map, length_seq.
  - unfold getCustomers, try_catch. unfold bind at 1. rewrite Hall.
    eexists. eexists. split; reflexivity.
Qed.

Lemma getAllCustomers_drops_pages_on_failure_witness :
  getAllCustomers (script [full_page] fault_body) 1 sample_world
  = Some (Throw (new_Error fault_detail),
          after_calls sample_world (requests_of_run sample_world 1)).
Proof.
  apply (getAllCustomers_drops_pages_on_failure (script [full_page] fault_body)
           sample_world (fun _ => repeat sample_customer 1000) (fun _ => VNum 1000)
           1 1 (new_Error fault_detail)).
  - reflexivity.
  - intros i Hi. destruct i; [reflexivity | lia].
  - intros i Hi. reflexivity.
  - reflexivity.
  - apply Nat.le_refl.
Defined.

(** The [/customers] handler always replies: with 200 and the list exactly
    when [getAllCustomers] returned it, with 400 when [getAllCustomers]
    threw.  It never throws. *)
Lemma getCustomers_always_replies (remote : remote_api) (fuel : nat) (w : world) :
  match getCustomers remote fuel w with
  | Some (Return r, w') =>
      (exists customers,
          getAllCustomers remote fuel w = Some (Return customers, w')
          /\ r = mkRes 200 (SendJson (VArr customers)))
      \/ (exists e w1,
             getAllCustomers remote fuel w = Some (Throw e, w1)
             /\ frame w1 w'
             /\ r = mkRes 400 (if truthy (lookup "Fault" (err_props e))
                               then SendJson (lookup "Fault" (err_props e))
                               else SendError e))
  | Some (Throw _, _) => False
  | None => getAllCustomers remote fuel w = None
  end.
Proof.
  unfold getCustomers, try_catch. unfold bind at 1.
  destruct (getAllCustomers remote fuel w) as [[[customers|e] w1]|].
  - left. now exists customers.
  - right. exists e, w1. split; [reflexivity|]. split; [|reflexivity].
    apply (preserves_log _ w1).
  - reflexivity.
Qed.

(** X5.  What the [/customers] route answers when the first call is
    rejected: a rejection with a truthy [error] property gives a 400 whose
    body is the fresh [Error] made of that property, even when the
    rejection also carried a [Fault]; only a rejection without [error] and
    with a truthy [Fault] gives a 400 whose body is the [Fault]. *)
Theorem getCustomers_rejection_body (remote : remote_api) (fuel : nat) (w : world)
    (e : thrown) :
  connected w = true ->
  remote (List.length (sent w)) (query_request w first_query) = Rejected e ->
  exists w',
    getCustomers remote fuel w
    = Some (Return
              (mkRes 400
                 (if truthy (lookup "error" (err_props e))
                  then SendError (new_Error (lookup "error" (err_props e)))
                  else if truthy (lookup "Fault" (err_props e))
                       then SendJson (lookup "Fault" (err_props e))
                       else SendError e)), w')
    /\ sent w' = (sent w ++ [query_request w first_query])%list.
Proof.
  intros Hc Hr.
  assert (Hall : getAllCustomers remote fuel w
                 = Some (Throw (rethrown e), after_calls w [query_request w first_query])).
  { unfold getAllCustomers. unfold bind at 1.
    rewrite (quickbooks_fails remote (query_args first_query) w (rethrown e) Hc);
      [reflexivity|].
    unfold query_request in Hr. now rewrite Hr. }
  unfold getCustomers, try_catch. unfold bind at 1. rewrite Hall.
  unfold rethrown.
  destruct (truthy (lookup "error" (err_props e))).
  - eexists. split; reflexivity.
  - destruct (truthy (lookup "Fault" (err_props e))); eexists; split; reflexivity.
Qed.

Lemma getCustomers_rejection_body_witness :
  exists w',
    getCustomers
      (fun _ _ => Rejected (mkThrown "Error" "Response has an Error"
                              [("error", VStr "Bad Request");
                               ("Fault", VObj [("type", VStr "ValidationFault")])]))
      3 sample_world
    = Some (Return (mkRes 400 (SendError (mkThrown "Error" "Bad Request" []))), w')
    /\ sent w' = [query_request sample_world first_query].
Proof.
  apply (getCustomers_rejection_body
           (fun _ _ => Rejected (mkThrown "Error" "Response has an Error"
                                   [("error", VStr "Bad Request");
                                    ("Fault", VObj [("type", VStr "ValidationFault")])]))
           3 sample_world _ eq_refl eq_refl).
Defined.

(* ================================================================== *)
(** ** The company route                                                *)
(* ================================================================== *)

Lemma append_empty_r (s : string) : (s ++ "")%string = s.
Proof. induction s as [|c s IH]; cbn; [reflexivity | now rewrite IH]. Qed.

(** X6.  [getCompanyInfo] sends one GET for
    [<host>v3/company/<realm>/companyinfo/<realm>] and answers 200 with the
    body when the body carries no fault; and however the call ends, the
    handler replies with 200 or 400 and never throws. *)
Theorem getCompanyInfo_reply (remote : remote_api) (w : world) :
  (forall st b,
      connected w = true ->
      remote (List.length (sent w))
        (mkRequest (VStr "GET")
           (api_host w ++ "v3/company/" ++ ToString (prop (token (oauth w)) "realmId")
            ++ "/companyinfo/" ++ ToString (prop (token (oauth w)) "realmId"))
           VUndefined VUndefined)
      = Resolved (mkResponse st b) ->
      has_fault (mkResponse st b) = false -> b <> VNull -> b <> VUndefined ->
      exists w',
        getCompanyInfo remote w = Some (Return (mkRes 200 (SendJson b)), w')
        /\ List.length (sent w') = S (List.length (sent w)))
  /\ match getCompanyInfo remote w with
     | Some (Return r, _) => res_status r = 200 \/ res_status r = 400
     | _ => False
     end.
Proof.
  split.
  - intros st b Hc Hr Hf Hn Hu.
    set (a := mkArgs "companyinfo" VUndefined
                (VStr ("/" ++ ToString (prop (token (oauth w)) "realmId")))
                VUndefined VUndefined VUndefined).
    assert (Hreq : request_for w a
                   = mkRequest (VStr "GET")
                       (api_host w ++ "v3/company/"
                        ++ ToString (prop (token (oauth w)) "realmId")
                        ++ "/companyinfo/" ++ ToString (prop (token (oauth w)) "realmId"))
                       VUndefined VUndefined).
    { unfold request_for, api_url, api_host, a. cbn [method headers body action urlParams query].
      cbn [or_else truthy String.eqb negb ToString append].
      now rewrite append_empty_r. }
    rewrite <- Hreq in Hr.
    pose proof (quickbooks_resolved remote a w _ (prop b "fault") Hc Hr
                  (get_prop b "fault" Hn Hu)) as Hq.
    unfold has_fault in Hf. cbn [json] in Hf. rewrite Hf in Hq.
    unfold getCompanyInfo, try_catch. unfold bind at 1. unfold gets.
    unfold bind at 1. unfold lift. rewrite (connected_get w Hc).
    unfold bind at 1. fold a. rewrite Hq.
    eexists. split; [reflexivity|].
    rewrite sent_after_calls, length_app. cbn [List.length]. lia.
  - unfold getCompanyInfo, try_catch. unfold bind at 1. unfold gets.
    unfold bind at 1. unfold lift.
    destruct (get (token (oauth w)) "realmId") as [realm|e].
    + unfold bind at 1.
      destruct (quickbooks_total remote
                  (mkArgs "companyinfo" VUndefined (VStr ("/" ++ ToString realm))
                     VUndefined VUndefined VUndefined) w) as ([results|e] & w' & ->).
      * left. reflexivity.
      * right. reflexivity.
    + right. reflexivity.
Qed.

Lemma getCompanyInfo_reply_witness :
  exists w',
    getCompanyInfo (script [] last_page) sample_world
    = Some (Return (mkRes 200 (SendJson last_page)), w')
    /\ List.length (sent w') = 1%nat.
Proof.
  destruct (getCompanyInfo_reply (script [] last_page) sample_world) as [H _].
  apply (H 200 last_page).
  - reflexivity.
  - reflexivity.
  - reflexivity.
  - discriminate.
  - discriminate.
Defined.

(* ================================================================== *)
(** ** Saving, loading and refreshing the credential                    *)
(* ================================================================== *)

Lemma write_ends_done (i : nat) (text : string) (w : world) :
  nth_error (writing w) i = Some text ->
  write_ends i WriteDone w
  = with_tmpfile (Some text)
      (with_writing (firstn i (writing w) ++ skipn (S i) (writing w))%list w).
Proof. intros H. unfold write_ends. now rewrite H. Qed.

(** X7.  [doRefreshToken] answers 200 with the new token once the refresh
    succeeded: the client then holds that token, with the library's
    defaults for a [latency] or [createdAt] of 0, and the write of its text
    has been started but not waited for: no write has ended when the reply
    goes out.  It answers 401 with the error's text when the refresh is
    rejected, leaving the client, the file and the writes in flight as
    they were; and it never throws. *)
Theorem doRefreshToken_reply (now : Z) (ro : refresh_outcome) (w : world) :
  (forall c,
      exists w',
        doRefreshToken now (Refreshed (credential_value c)) w
        = Some (Return (mkRes 200 (SendJson (credential_value c))), w')
        /\ token (oauth w') = credential_value (with_defaults now c)
        /\ writing w' = (writing w ++ [stored_text c])%list
        /\ tmpfile w' = tmpfile w
        /\ logged w'
           = (logged w ++ [LogInfo (app_name w) "Successfully refreshed access token!"])%list)
  /\ (forall e,
        exists w',
          doRefreshToken now (RefreshRejected e) w
          = Some (Return (mkRes 401 (SendJson (VObj [("error", VStr (Error_toString e))]))), w')
          /\ oauth w' = oauth w /\ tmpfile w' = tmpfile w /\ writing w' = writing w)
  /\ match doRefreshToken now ro w with
     | Some (Return r, _) => res_status r = 200 \/ res_status r = 401
     | _ => False
     end.
Proof.
  split; [|split].
  - intros c. eexists. split.
    + unfold doRefreshToken, try_catch. unfold bind at 1.
      rewrite refreshToken_saving. reflexivity.
    + repeat split.
  - intros e. eexists. split; [reflexivity|]. repeat split.
  - unfold doRefreshToken, try_catch, refreshToken, oauth_refresh, setAccessToken.
    destruct ro as [tok|e]; [|right; reflexivity].
    cbv [bind ret modify log gets throw].
    destruct (JSON.stringify tok); [left | right]; reflexivity.
Qed.

(** X8.  A write that fails without touching the file does not undo the
    save: [setAccessToken] has long returned, the client holds the new
    credential, and the callback only prints the error.  The file still
    holds the credential saved before, and that older credential is what
    the next start loads. *)
Theorem failed_write_leaves_stale_file (old new : Credential) (err : thrown)
    (now now' : Z) (w : world) :
  tmpfile w = Some (stored_text old) ->
  writing w = [] ->
  exists w1 w2 w3,
    setAccessToken now (credential_value new) w = Some (Return tt, w1)
    /\ w2 = write_ends 0 (WriteFailed err (tmpfile w)) w1
    /\ token (oauth w2) = credential_value (with_defaults now new)
    /\ logged w2 = (logged w ++ [ConsoleError (Error_toString err)])%list
    /\ writing w2 = []
    /\ read_stored_token w2 = Some (Return (credential_value old), w2)
    /\ load_stored_token now' (restart w2) = Some (Return tt, w3)
    /\ token (oauth w3) = credential_value (with_defaults now' old).
Proof.
  intros Hf Hw.
  assert (He : write_ends 0 (WriteFailed err (tmpfile w)) (saving now new w)
               = with_logged (logged w ++ [ConsoleError (Error_toString err)])%list
                   (with_oauth (mkOAuth (credential_value (with_defaults now new))
                                  (environment (oauth w))) w)).
  { destruct w as [n o f s l wr]. cbn [writing] in Hw. subst wr. reflexivity. }
  exists (saving now new w),
         (write_ends 0 (WriteFailed err (tmpfile w)) (saving now new w)).
  eexists.
  split; [apply setAccessToken_saving|].
  split; [reflexivity|].
  rewrite He.
  split; [reflexivity|]. split; [reflexivity|]. split; [exact Hw|].
  split; [now apply read_stored_credential|].
  split; [now apply (load_stored_credential now' old)|].
  reflexivity.
Qed.

Lemma failed_write_leaves_stale_file_witness :
  exists w1 w2 w3,
    setAccessToken 1730388327000 (credential_value refreshed_credential) stored_world
    = Some (Return tt, w1)
    /\ w2 = write_ends 0 (WriteFailed (mkThrown "Error" "ENOSPC: no space left on device" [])
                             (tmpfile stored_world)) w1
    /\ token (oauth w2) = credential_value refreshed_credential
    /\ logged w2 = [ConsoleError "Error: ENOSPC: no space left on device"]
    /\ writing w2 = []
    /\ tmpfile w2 = tmpfile stored_world
    /\ load_stored_token 1730390000000 (restart w2) = Some (Return tt, w3)
    /\ connected w3 = true.
Proof.
  destruct (failed_write_leaves_stale_file
              (mkCredential "4620816365199133610" "bearer" "access" "refresh"
                 3600 8726400 "" 60000 1730384727000)
              refreshed_credential
              (mkThrown "Error" "ENOSPC: no space left on device" [])
              1730388327000 1730390000000 stored_world eq_refl eq_refl)
    as (w1 & w2 & w3 & H1 & H2 & H3 & H4 & H5 & H6 & H7 & H8).
  exists w1, w2, w3.
  split; [exact H1|]. split; [exact H2|]. split; [exact H3|]. split; [exact H4|].
  split; [exact H5|]. split.
  - rewrite H2. rewrite (setAccessToken_saving _ refreshed_credential) in H1.
    injection H1 as <-. reflexivity.
  - split; [exact H7|]. unfold connected. rewrite H8. reflexivity.
Defined.

(** X9.  A save is not waited for, and nothing orders two saves.  After
    two saves in a row the client holds the second credential, both writes
    are in flight and neither has ended.  When each write leaves its data
    in the file as it ends, the file ends with the data of the write that
    ends last: the second credential when the writes end in the order of
    the saves, the first when they end the other way round, the client
    holding the second either way.  When the two writes run into each
    other and leave a mix, the file holds the mix and nothing is
    printed. *)
Theorem saves_are_not_awaited (c1 c2 : Credential) (now1 now2 : Z) (w : world) :
  writing w = [] ->
  exists w',
    (setAccessToken now1 (credential_value c1) ;;;
     setAccessToken now2 (credential_value c2)) w
    = Some (Return tt, w')
    /\ token (oauth w') = credential_value (with_defaults now2 c2)
    /\ writing w' = [stored_text c1; stored_text c2]
    /\ tmpfile w' = tmpfile w
    /\ tmpfile (write_ends 0 WriteDone (write_ends 0 WriteDone w')) = Some (stored_text c2)
    /\ tmpfile (write_ends 0 WriteDone (write_ends 1 WriteDone w')) = Some (stored_text c1)
    /\ token (oauth (write_ends 0 WriteDone (write_ends 1 WriteDone w')))
       = credential_value (with_defaults now2 c2)
    /\ writing (write_ends 0 WriteDone (write_ends 1 WriteDone w')) = []
    /\ (forall i mix mix',
          (i <= 1)%nat ->
          tmpfile (write_ends 0 (WriteMixed mix') (write_ends i (WriteMixed mix) w')) = mix'
          /\ logged (write_ends 0 (WriteMixed mix') (write_ends i (WriteMixed mix) w'))
             = logged w).
Proof.
  intros Hw. exists (saving now2 c2 (saving now1 c1 w)).
  split.
  { unfold bind. now rewrite !setAccessToken_saving. }
  destruct w as [n o f s l wr]. cbn [writing] in Hw. subst wr.
  repeat split; destruct i as [|[|i]]; try lia; reflexivity.
Qed.

Lemma saves_are_not_awaited_witness :
  exists w',
    (setAccessToken 1730384727000 (credential_value sample_credential) ;;;
     setAccessToken 1730388327000 (credential_value refreshed_credential)) stored_world
    = Some (Return tt, w')
    /\ token (oauth w') = credential_value refreshed_credential
    /\ tmpfile (write_ends 0 WriteDone (write_ends 1 WriteDone w'))
       = Some (stored_text sample_credential).
Proof.
  destruct (saves_are_not_awaited sample_credential refreshed_credential
              1730384727000 1730388327000 stored_world eq_refl)
    as (w' & H1 & H2 & _ & _ & _ & H6 & _).
  exists w'. split; [exact H1|]. split; [exact H2 | exact H6].
Defined.

(** X10.  When the token file is missing or its text is not JSON, the
    constructor goes on without a credential: it logs that it found none,
    starts neither a refresh nor a write, leaves client and file as they
    are and raises nothing. *)
Theorem constructor_load_without_token (now now' : Z) (ro : refresh_outcome) (w : world) :
  tmpfile w = None
  \/ (exists text e, tmpfile w = Some text /\ JSON.parse text = Some (Throw e)) ->
  constructor_load now ro now' w
  = Some (mkDetached
            (with_logged
               (logged w ++ [LogSilly "Did not find a locally stored QBO access token"])%list w)
            None)
  /\ load_stored_token now w
     = Some (Return tt,
             with_logged
               (logged w ++ [LogSilly "Did not find a locally stored QBO access token"])%list w).
Proof.
  intros [H | (text & e & H & Hp)].
  - unfold constructor_load, load_stored_token, try_catch.
    unfold bind at 1 3. unfold read_stored_token, bind, readFileSync. rewrite H.
    split; reflexivity.
  - unfold constructor_load, load_stored_token, try_catch.
    unfold bind at 1 3. rewrite (read_stored_token_file w text _ H Hp).
    split; reflexivity.
Qed.

Lemma constructor_load_without_token_witness :
  constructor_load 1730384727000 (Refreshed VNull) 1730384727500 broken_world
  = Some (mkDetached
            (with_logged [LogSilly "Did not find a locally stored QBO access token"]
               broken_world)
            None).
Proof.
  apply (constructor_load_without_token 1730384727000 1730384727500 (Refreshed VNull)
           broken_world).
  right. exists "{"%string. eexists. split; reflexivity.
Defined.

(** X11.  When the token file holds a credential, the constructor sets it
    and starts a refresh, each of the two saves starting a write of its
    own.  If the refresh succeeds before the first write has ended, the
    client holds the refreshed credential and both writes are in flight;
    each write leaving its data as it ends, the file ends with the
    refreshed credential when the writes end in the order they were
    started in, and with the stored one when the first write ends last.
    If the first write has ended by the time the refresh settles, only the
    second write is in flight and the file ends with the refreshed
    credential.  If the refresh is rejected, the client keeps the stored
    credential and the rejection is left unhandled. *)
Theorem constructor_load_refreshes (stored : Credential) (now now' : Z) (w : world) :
  tmpfile w = Some (stored_text stored) ->
  writing w = [] ->
  (forall renewed,
      exists w',
        constructor_load now (Refreshed (credential_value renewed)) now' w
        = Some (mkDetached w' None)
        /\ token (oauth w') = credential_value (with_defaults now' renewed)
        /\ logged w'
           = (logged w ++ [LogSilly "Read locally stored QBO access token";
                           LogInfo (app_name w) "Successfully refreshed access token!"])%list
        /\ writing w' = [stored_text stored; stored_text renewed]
        /\ tmpfile w' = Some (stored_text stored)
        /\ tmpfile (write_ends 0 WriteDone (write_ends 0 WriteDone w'))
           = Some (stored_text renewed)
        /\ tmpfile (write_ends 0 WriteDone (write_ends 1 WriteDone w'))
           = Some (stored_text stored))
  /\ (forall renewed,
        exists w1 w',
          load_stored_token now w = Some (Return tt, w1)
          /\ spawn_refreshToken now' (Refreshed (credential_value renewed))
               (write_ends 0 WriteDone w1)
             = mkDetached w' None
          /\ token (oauth w') = credential_value (with_defaults now' renewed)
          /\ writing w' = [stored_text renewed]
          /\ tmpfile (write_ends 0 WriteDone w') = Some (stored_text renewed))
  /\ (forall e,
        exists w',
          constructor_load now (RefreshRejected e) now' w = Some (mkDetached w' (Some e))
          /\ token (oauth w') = credential_value (with_defaults now stored)
          /\ logged w' = (logged w ++ [LogSilly "Read locally stored QBO access token"])%list
          /\ writing w' = [stored_text stored]
          /\ tmpfile w' = Some (stored_text stored)).
Proof.
  intros H Hw.
  assert (Hload : (data <- read_stored_token ;;
                   log (LogSilly "Read locally stored QBO access token") ;;;
                   setAccessToken now data) w
                  = Some (Return tt,
                          saving now stored
                            (with_logged
                               (logged w ++ [LogSilly "Read locally stored QBO access token"])%list
                               w))).
  { unfold bind at 1. rewrite (read_stored_credential stored w H).
    unfold bind at 1. unfold log, modify.
    now rewrite setAccessToken_saving. }
  split; [|split].
  - intros renewed. unfold constructor_load. rewrite Hload.
    unfold spawn_refreshToken. rewrite refreshToken_saving.
    eexists. split; [reflexivity|].
    destruct w as [n o f s l wr]. cbn [writing] in Hw. cbn [tmpfile] in H. subst wr f.
    split; [reflexivity|]. split.
    { cbn. now rewrite <- List.app_assoc. }
    repeat split.
  - intros renewed. eexists. eexists.
    split; [now apply (load_stored_credential now stored)|].
    unfold spawn_refreshToken. rewrite refreshToken_saving.
    split; [reflexivity|].
    destruct w as [n o f s l wr]. cbn [writing] in Hw. cbn [tmpfile] in H. subst wr f.
    repeat split.
  - intros e. unfold constructor_load. rewrite Hload.
    eexists. split; [reflexivity|].
    destruct w as [n o f s l wr]. cbn [writing] in Hw. cbn [tmpfile] in H. subst wr f.
    repeat split.
Qed.

Lemma constructor_load_refreshes_witness :
  exists w',
    constructor_load 1730384727000 (Refreshed (credential_value refreshed_credential))
      1730384727500 stored_world
    = Some (mkDetached w' None)
    /\ token (oauth w') = credential_value refreshed_credential
    /\ tmpfile (write_ends 0 WriteDone (write_ends 0 WriteDone w'))
       = Some (stored_text refreshed_credential).
Proof.
  destruct (constructor_load_refreshes
              (mkCredential "4620816365199133610" "bearer" "access" "refresh"
                 3600 8726400 "" 60000 1730384727000)
              1730384727000 1730384727500 stored_world eq_refl eq_refl) as [H _].
  destruct (H refreshed_credential) as (w' & H1 & H2 & _ & _ & _ & H6 & _).
  exists w'. split; [exact H1|]. split; [exact H2 | exact H6].
Defined.



(* ================================================================== *)
(** ** The guard on the routes                                          *)
(* ================================================================== *)

Lemma decodeUserToken_next (verify : jwt_verify) (req req' : request) :
  decodeUserToken verify req = Next req' ->
  exists tok payload,
    header_token req = Some tok /\ tok <> EmptyString
    /\ verify tok = Return payload
    /\ (req' = req \/ req' = with_user (prop payload "data") req).
Proof.
  unfold decodeUserToken.
  destruct (header_token req) as [[|c tok]|]; try discriminate.
  destruct (verify (String c tok)) as [payload|e] eqn:Hv; try discriminate.
  destruct (get payload "data") as [data|e] eqn:Hd; try discriminate.
  destruct (get data "uuid") as [uuid|e]; try discriminate.
  intros H. exists (String c tok), payload.
  split; [reflexivity|]. split; [discriminate|]. split; [exact Hv|].
  unfold prop. rewrite Hd.
  destruct (truthy uuid); injection H as <-; [right | left]; reflexivity.
Qed.

(** X13.  No guarded handler runs without a verified token: when the router
    calls the handler of a route other than [/callback], the request had
    an [authorization] header with a non-empty second word, [jwt.verify]
    accepted that word, the handler is the one registered for the path,
    and the request it gets is the incoming one, with [user] set to the
    payload's [data] or left as it was. *)
Theorem guarded_handler_needs_verified_token (verify : jwt_verify) (r : route)
    (req req' : request) (h : handler) :
  In r routes -> route_path r <> "/callback" ->
  http_method req = "GET" -> path req = route_path r ->
  dispatch verify req = Invoked h req' ->
  exists tok payload,
    header_token req = Some tok /\ tok <> EmptyString
    /\ verify tok = Return payload
    /\ h = route_handler r
    /\ (req' = req \/ req' = with_user (prop payload "data") req).
Proof.
  intros Hin Hcb Hm Hp Hd.
  rewrite (dispatch_guarded verify r req Hin Hcb Hm Hp) in Hd.
  destruct (decodeUserToken verify req) as [x|e|req''] eqn:Hg; try discriminate.
  injection Hd as <- <-.
  destruct (decodeUserToken_next verify req req'' Hg) as (tok & payload & H1 & H2 & H3 & H4).
  exists tok, payload. repeat split; assumption.
Qed.

Lemma guarded_handler_needs_verified_token_witness :
  exists tok payload,
    header_token (mkReq "GET" "/company" (Some "Bearer abc.def.ghi") VUndefined) = Some tok
    /\ tok <> EmptyString
    /\ (fun _ => Return (VObj [("data", VObj [("uuid", VStr "u-1")])])) tok = Return payload
    /\ GetCompanyInfo = GetCompanyInfo
    /\ (mkReq "GET" "/company" (Some "Bearer abc.def.ghi") (VObj [("uuid", VStr "u-1")])
        = mkReq "GET" "/company" (Some "Bearer abc.def.ghi") VUndefined
        \/ mkReq "GET" "/company" (Some "Bearer abc.def.ghi") (VObj [("uuid", VStr "u-1")])
           = with_user (prop payload "data")
               (mkReq "GET" "/company" (Some "Bearer abc.def.ghi") VUndefined)).
Proof.
  apply (guarded_handler_needs_verified_token
           (fun _ => Return (VObj [("data", VObj [("uuid", VStr "u-1")])]))
           (mkRoute "/company" [DecodeUserToken] GetCompanyInfo)
           (mkReq "GET" "/company" (Some "Bearer abc.def.ghi") VUndefined)
           (mkReq "GET" "/company" (Some "Bearer abc.def.ghi") (VObj [("uuid", VStr "u-1")]))
           GetCompanyInfo).
  - cbn. tauto.
  - discriminate.
  - reflexivity.
  - reflexivity.
  - reflexivity.
Defined.

(** X14.  What the guard does with a token.  When [jwt.verify] rejects it,
    the error goes to the router's error handling and the route's handler
    is not called.  When it is accepted with a payload whose [data] has a
    truthy [uuid], the handler gets the request with [user] set to that
    [data]; when the [uuid] is missing or falsy the handler is called all
    the same, with [user] not set. *)
Theorem guard_with_token (verify : jwt_verify) (r : route) (req : request) (tok : string) :
  In r routes -> route_path r <> "/callback" ->
  http_method req = "GET" -> path req = route_path r ->
  header_token req = Some tok -> tok <> EmptyString ->
  (forall err, verify tok = Throw err -> dispatch verify req = Failed err)
  /\ (forall payload data uuid,
        verify tok = Return payload ->
        get payload "data" = Return data -> get data "uuid" = Return uuid ->
        dispatch verify req
        = Invoked (route_handler r) (if truthy uuid then with_user data req else req)).
Proof.
  intros Hin Hcb Hm Hp Ht Hne.
  rewrite (dispatch_guarded verify r req Hin Hcb Hm Hp).
  unfold decodeUserToken. rewrite Ht.
  destruct tok as [|c tok]; [contradiction|].
  split.
  - intros err Hv. now rewrite Hv.
  - intros payload data uuid Hv Hd Hu. rewrite Hv, Hd, Hu.
    destruct (truthy uuid); reflexivity.
Qed.

Lemma guard_with_token_witness :
  dispatch (fun _ => Return (VObj [("data", VObj [("role", VStr "admin")])]))
    (mkReq "GET" "/customers" (Some "Bearer abc.def.ghi") VUndefined)
  = Invoked GetCustomers (mkReq "GET" "/customers" (Some "Bearer abc.def.ghi") VUndefined).
Proof.
  destruct (guard_with_token
              (fun _ => Return (VObj [("data", VObj [("role", VStr "admin")])]))
              (mkRoute "/customers" [DecodeUserToken] GetCustomers)
              (mkReq "GET" "/customers" (Some "Bearer abc.def.ghi") VUndefined)
              "abc.def.ghi") as [_ H].
  - cbn. tauto.
  - discriminate.
  - reflexivity.
  - reflexivity.
  - reflexivity.
  - discriminate.
  - apply (H (VObj [("data", VObj [("role", VStr "admin")])])
             (VObj [("role", VStr "admin")]) VUndefined); reflexivity.
Defined.

Lemma split_space_word (t : string) : no_space t = true -> split_space t = [t].
Proof.
  induction t as [|c t IH]; intros H.
  - reflexivity.
  - cbn [no_space] in H. apply andb_true_iff in H. destruct H as [Hc Ht].
    cbn [split_space]. apply negb_true_iff in Hc. rewrite Hc, (IH Ht). reflexivity.
Qed.

Lemma split_space_append (s t : string) :
  no_space s = true ->
  split_space (s ++ String " " t) = s :: split_space t.
Proof.
  induction s as [|c s IH]; intros H.
  - reflexivity.
  - cbn [no_space] in H. apply andb_true_iff in H. destruct H as [Hc Hs].
    cbn [append split_space]. apply negb_true_iff in Hc. rewrite Hc, (IH Hs). reflexivity.
Qed.

(** X15.  The guard does not look at the scheme: for a header made of any
    word, a space and a token without spaces, the token is what is handed
    to [jwt.verify], be the first word [Bearer] or anything else. *)
Theorem header_token_any_scheme (scheme tok : string) (m p : string) (u : value) :
  no_space scheme = true -> no_space tok = true ->
  header_token (mkReq m p (Some (scheme ++ String " " tok)) u) = Some tok.
Proof.
  intros Hs Ht. unfold header_token. cbn [authorization].
  rewrite split_space_append by exact Hs.
  rewrite split_space_word by exact Ht.
  destruct scheme; reflexivity.
Qed.

Lemma header_token_any_scheme_witness :
  header_token (mkReq "GET" "/" (Some ("Basic" ++ String " " "abc.def.ghi")) VUndefined)
  = Some "abc.def.ghi".
Proof.
  apply (header_token_any_scheme "Basic" "abc.def.ghi" "GET" "/" VUndefined);
    reflexivity.
Defined.

(* ================================================================== *)
(** ** The event listener                                               *)
(* ================================================================== *)

(** X16.  The [qbo:get:customers] listener, after [k] full pages: when page
    [k] ends the run, it emits one [qbo:result:customers] event that
    carries the records of all pages; when the call for page [k] fails, it
    emits nothing and the failure is left as an unhandled rejection. *)
Theorem listener_result_event (remote : remote_api) (w : world)
    (items : nat -> list value) (mrs : nat -> value) (k fuel : nat) :
  connected w = true ->
  (forall i, (i < k)%nat -> serves remote w i (items i) (mrs i)) ->
  (forall i, (i < k)%nat -> parseInt (mrs i) = Num 1000) ->
  (k <= fuel)%nat ->
  (serves remote w k (items k) (mrs k) -> parseInt (mrs k) <> Num 1000 ->
   on_get_customers remote fuel w
   = Some (mkBridge (after_calls w (requests_of_run w k))
             [("qbo:result:customers", records_upto items k)] None))
  /\ (forall e,
        call_error (remote (List.length (sent w) + k)%nat (query_request w (page_query k)))
        = Some e ->
        on_get_customers remote fuel w
        = Some (mkBridge (after_calls w (requests_of_run w k)) [] (Some e))).
Proof.
  intros Hc Hserve Hfull Hfuel. split.
  - intros Hk Hne. unfold on_get_customers.
    rewrite (getAllCustomers_stops remote k w items mrs fuel); try assumption.
    + reflexivity.
    + intros i Hi. destruct (Nat.eq_dec i k) as [-> | Hik]; [exact Hk|].
      apply Hserve. lia.
    + now apply strict_eq_false.
  - intros e He. unfold on_get_customers.
    now rewrite (getAllCustomers_fails remote k w items mrs fuel e).
Qed.

Lemma listener_result_event_witness :
  on_get_customers (script [full_page] last_page) 1 sample_world
  = Some (mkBridge (after_calls sample_world (requests_of_run sample_world 1))
            [("qbo:result:customers",
              records_upto (fun i => match i with
                                     | O => repeat sample_customer 1000
                                     | _ => [sample_customer]
                                     end) 1)] None).
Proof.
  destruct (listener_result_event (script [full_page] last_page) sample_world
              (fun i => match i with
                        | O => repeat sample_customer 1000
                        | _ => [sample_customer]
                        end)
              (fun i => match i with O => VNum 1000 | _ => VNum 1 end) 1 1) as [H _].
  - reflexivity.
  - intros i Hi. destruct i; [reflexivity | lia].
  - intros i Hi. destruct i; [reflexivity | lia].
  - apply Nat.le_refl.
  - apply H; [reflexivity | discriminate].
Defined.

(* ================================================================== *)
(** ** The constructor's settings                                       *)
(* ================================================================== *)

(** X17.  For every [options] but [null] the constructor settles the name,
    the root and the allowed origins, each taken from [options] when it is
    there and truthy and from the default otherwise; anything that is not
    an object counts as no options.  For [null], which [typeof] calls an
    object, reading the name throws a [TypeError] and no app is made. *)
Theorem constructor_settings_defaults (options : value) (env : process_env)
    (stored : option string) :
  options <> VNull ->
  constructor_settings options
  = Return (mkSettings
              (or_else (prop options "name") (VStr "Helio Quickbooks API"))
              (or_else (prop options "root") (VStr "/apps/quickbooks"))
              (or_else (prop options "corsAllowedOrigins")
                       (VArr [VStr "http://localhost:3000/"])))
  /\ (exists w, new_App options env stored = Return w /\ tmpfile w = stored
                /\ token (oauth w) = VObj [] /\ sent w = [] /\ logged w = [])
  /\ (exists e, constructor_settings VNull = Throw e /\ err_name e = "TypeError"
                /\ new_App VNull env stored = Throw e).
Proof.
  intros Hn.
  assert (H : constructor_settings options
              = Return (mkSettings
                          (or_else (prop options "name") (VStr "Helio Quickbooks API"))
                          (or_else (prop options "root") (VStr "/apps/quickbooks"))
                          (or_else (prop options "corsAllowedOrigins")
                                   (VArr [VStr "http://localhost:3000/"]))))
    by (destruct options; try reflexivity; contradiction).
  split; [exact H|]. split.
  - unfold new_App. rewrite H. eexists. repeat split.
  - eexists. repeat split.
Qed.

Lemma constructor_settings_defaults_witness :
  constructor_settings (VObj [("name", VStr "Books"); ("root", VStr "")])
  = Return (mkSettings (VStr "Books") (VStr "/apps/quickbooks")
              (VArr [VStr "http://localhost:3000/"])).
Proof.
  apply (constructor_settings_defaults (VObj [("name", VStr "Books"); ("root", VStr "")])
           production_env None).
  discriminate.
Defined.

(** X18.  Which host the API calls go to.  A new app calls the sandbox
    host exactly when [INTUIT_API_ENVIRONMENT] is not set, is empty or is
    [sandbox] to the letter; any other value, a misspelt [Sandbox]
    included, makes every call go to the production host. *)
Theorem api_host_by_environment (options : value) (env : process_env)
    (stored : option string) (w : world) :
  new_App options env stored = Return w ->
  (api_host w = environment_sandbox
   <-> env "INTUIT_API_ENVIRONMENT" = None
       \/ env "INTUIT_API_ENVIRONMENT" = Some EmptyString
       \/ env "INTUIT_API_ENVIRONMENT" = Some "sandbox")
  /\ (api_host w = environment_sandbox \/ api_host w = environment_production)
  /\ (forall a, exists tail, req_url (request_for w a) = api_host w ++ tail).
Proof.
  unfold new_App. destruct (constructor_settings options) as [settings|e]; [|discriminate].
  intros H. injection H as <-.
  unfold api_host, base_url. cbn [oauth environment oauth_config_of config_environment].
  unfold env_or.
  split; [|split].
  - destruct (env "INTUIT_API_ENVIRONMENT") as [s|].
    + destruct (String.eqb s "") eqn:He.
      * apply String.eqb_eq in He. subst s. cbn. split; auto.
      * destruct (String.eqb s "sandbox") eqn:Hs.
        -- apply String.eqb_eq in Hs. subst s. split; auto.
        -- split; [discriminate|].
           intros [H | [H | H]]; try discriminate H; injection H as ->; discriminate.
    + cbn. split; auto.
  - destruct (env "INTUIT_API_ENVIRONMENT") as [s|]; [|left; reflexivity].
    destruct (String.eqb s ""); [left; reflexivity|].
    destruct (String.eqb s "sandbox"); [left | right]; reflexivity.
  - intros a. eexists. reflexivity.
Qed.

Lemma api_host_by_environment_witness :
  api_host (mkWorld "Helio Quickbooks API" (mkOAuth (VObj []) "production") None [] [] [])
  = environment_sandbox
  \/ api_host (mkWorld "Helio Quickbooks API" (mkOAuth (VObj []) "production") None [] [] [])
     = environment_production.
Proof.
  apply (api_host_by_environment VUndefined production_env None
           (mkWorld "Helio Quickbooks API" (mkOAuth (VObj []) "production") None [] [] [])).
  reflexivity.
Defined.

(* ================================================================== *)
(** ** Runs of the timer                                                *)
(* ================================================================== *)

Lemma timer_tick_refreshed (mode : rejection_mode) (now : Z) (c : Credential) (w : world)
    (warnings : list thrown) :
  timer_tick mode now (Refreshed (credential_value c)) (Running w warnings)
  = Running
      (with_logged
         (logged w ++ [LogInfo (app_name w) "Successfully refreshed access token!"])%list
         (saving now c w))
      warnings.
Proof.
  unfold timer_tick, spawn_refreshToken. rewrite refreshToken_saving.
  now destruct mode.
Qed.

Lemma run_ticks_exited (mode : rejection_mode) (ticks : list tick) (code : Z) (w : world) :
  run_ticks mode ticks (Exited code w) = Exited code w.
Proof. induction ticks as [|t ticks IH]; [reflexivity | exact IH]. Qed.

Lemma run_ticks_cons (mode : rejection_mode) (t : tick) (ticks : list tick) (p : process) :
  run_ticks mode (t :: ticks) p
  = run_ticks mode ticks (timer_tick mode (tick_time t) (tick_outcome t) p).
Proof. reflexivity. Qed.

(** X19.  Runs of the 30-minute timer.  Under a runtime that only warns,
    the process outlives any run of ticks: afterwards the client holds the
    credential of the last refresh that succeeded (its earlier token if
    none did), with the library's defaults for a [latency] or [createdAt]
    of 0; each successful refresh has started one write, in order; and
    each rejected refresh has left one warning, in order.  Under a runtime
    that raises, the first rejected refresh ends the process and the ticks
    after it change nothing. *)
Theorem timer_runs (ticks : list tick) (w : world) (warnings : list thrown) :
  (exists w',
      run_ticks WarnMode ticks (Running w warnings)
      = Running w' (warnings ++ rejections ticks)%list
      /\ token (oauth w') = last_refreshed (token (oauth w)) ticks
      /\ writing w' = (writing w ++ texts_of ticks)%list
      /\ environment (oauth w') = environment (oauth w)
      /\ sent w' = sent w)
  /\ (forall before now e after,
        ticks = (before ++ TickRejected now e :: after)%list ->
        rejections before = [] ->
        exists w',
          run_ticks ThrowMode ticks (Running w warnings) = Exited 1 w'
          /\ run_ticks ThrowMode before (Running w warnings) = Running w' warnings
          /\ token (oauth w') = last_refreshed (token (oauth w)) before).
Proof.
  split.
  - revert w warnings.
    induction ticks as [|t ticks IH]; intros w warnings.
    + exists w. cbn. rewrite !List.app_nil_r. repeat split.
    + rewrite run_ticks_cons. destruct t as [now c|now e]; cbn [tick_outcome tick_time].
      * rewrite timer_tick_refreshed.
        destruct (IH (with_logged
                        (logged w ++ [LogInfo (app_name w)
                                        "Successfully refreshed access token!"])%list
                        (saving now c w)) warnings) as (w' & Hr & Ht & Hw & He & Hs).
        exists w'. repeat split; try assumption.
        rewrite Hw. cbn [writing with_logged saving with_writing texts_of flat_map].
        now rewrite <- List.app_assoc.
      * change (timer_tick WarnMode now (RefreshRejected e) (Running w warnings))
          with (Running w (warnings ++ [e])%list).
        destruct (IH w (warnings ++ [e])%list) as (w' & Hr & Ht & Hw & He & Hs).
        exists w'. rewrite Hr.
        change (rejections (TickRejected now e :: ticks)) with (e :: rejections ticks).
        rewrite <- List.app_assoc. repeat split; assumption.
  - intros before now e after -> Hnone.
    revert w warnings.
    induction before as [|t before IH]; intros w warnings.
    + exists w. cbn [List.app]. rewrite run_ticks_cons.
      change (timer_tick ThrowMode (tick_time (TickRejected now e))
                (tick_outcome (TickRejected now e)) (Running w warnings))
        with (Exited 1 w).
      rewrite run_ticks_exited. repeat split.
    + destruct t as [now0 c|now0 e']; [|discriminate Hnone].
      cbn [List.app]. rewrite !run_ticks_cons. cbn [tick_outcome tick_time].
      rewrite timer_tick_refreshed.
      apply (IH Hnone).
Qed.

Lemma timer_runs_witness :
  exists w',
    run_ticks ThrowMode
      [TickRefreshed 1730388327000 refreshed_credential;
       TickRejected 1730390127000 plain_error;
       TickRefreshed 1730391927000 sample_credential]
      (Running sample_world [])
    = Exited 1 w'
    /\ run_ticks ThrowMode [TickRefreshed 1730388327000 refreshed_credential]
         (Running sample_world [])
       = Running w' []
    /\ token (oauth w')
       = last_refreshed (token (oauth sample_world))
           [TickRefreshed 1730388327000 refreshed_credential].
Proof.
  destruct (timer_runs
              [TickRefreshed 1730388327000 refreshed_credential;
               TickRejected 1730390127000 plain_error;
               TickRefreshed 1730391927000 sample_credential] sample_world []) as [_ H].
  apply (H [TickRefreshed 1730388327000 refreshed_credential] 1730390127000 plain_error
           [TickRefreshed 1730391927000 sample_credential]); reflexivity.
Defined.

(* ================================================================== *)
(** ** A single page                                                    *)
(* ================================================================== *)

Lemma read_uint_string_of_uint_end (d : uint) :
  read_uint (NilEmpty.string_of_uint d) = (d, EmptyString).
Proof.
  induction d; cbn [NilEmpty.string_of_uint read_uint]; [reflexivity | ..];
    match goal with
    | |- context [digit_of_ascii ?x] =>
        let v := eval vm_compute in (digit_of_ascii x) in
        change (digit_of_ascii x) with v
    end; cbv iota; now rewrite IHd.
Qed.

Lemma read_dec_string_of_uint (u : uint) :
  u <> Nil ->
  read_dec (NilEmpty.string_of_uint u) = Some (Z.of_N (N.of_uint u)).
Proof.
  intros Hu. unfold read_dec. rewrite read_uint_string_of_uint_end.
  destruct u; [contradiction | reflexivity ..].
Qed.

Lemma parseInt_string_uint (u : uint) :
  canonical u = true ->
  parseInt_string (NilEmpty.string_of_uint u) = Num (Z.of_N (N.of_uint u))
  /\ parseInt_string (String "-" (NilEmpty.string_of_uint u)) = Num (- Z.of_N (N.of_uint u)).
Proof.
  intros Hc.
  assert (Hu : u <> Nil) by (intros ->; discriminate Hc).
  pose proof (read_dec_string_of_uint u Hu) as Hd.
  destruct u as [|u|u|u|u|u|u|u|u|u|u]; try contradiction;
    try (unfold parseInt_string;
         cbn [NilEmpty.string_of_uint trim_start is_space] in *;
         rewrite Hd; split; reflexivity).
  destruct u; try discriminate Hc. split; reflexivity.
Qed.

Lemma parseInt_number (n : Z) : parseInt (VNum n) = Num n.
Proof.
  unfold parseInt. cbn [ToString]. unfold Number_toString.
  destruct n as [|p|p]; cbn [Z.to_int NilZero.string_of_int].
  - reflexivity.
  - unfold NilZero.string_of_uint.
    pose proof (DecimalPos.Unsigned.to_uint_nonnil p) as Hn.
    replace (match Pos.to_uint p with Nil => "0" | _ => NilEmpty.string_of_uint (Pos.to_uint p) end)
      with (NilEmpty.string_of_uint (Pos.to_uint p))
      by (destruct (Pos.to_uint p); [contradiction | reflexivity ..]).
    rewrite (proj1 (parseInt_string_uint _ (to_uint_canonical p))).
    change (N.of_uint (Pos.to_uint p)) with (Pos.of_uint (Pos.to_uint p)).
    now rewrite DecimalPos.Unsigned.of_to.
  - unfold NilZero.string_of_uint.
    pose proof (DecimalPos.Unsigned.to_uint_nonnil p) as Hn.
    replace (match Pos.to_uint p with Nil => "0" | _ => NilEmpty.string_of_uint (Pos.to_uint p) end)
      with (NilEmpty.string_of_uint (Pos.to_uint p))
      by (destruct (Pos.to_uint p); [contradiction | reflexivity ..]).
    rewrite (proj2 (parseInt_string_uint _ (to_uint_canonical p))).
    change (N.of_uint (Pos.to_uint p)) with (Pos.of_uint (Pos.to_uint p)).
    now rewrite DecimalPos.Unsigned.of_to.
Qed.

(** X20.  When the first page reports a number other than 1000 in
    [maxResults], any count from 0 to 999 among them, [getAllCustomers]
    returns the records of that page after exactly one request and without
    a turn of the loop; the number of records in the page plays no part. *)
Theorem getAllCustomers_single_page (remote : remote_api) (w : world)
    (items : list value) (n : Z) (fuel : nat) :
  connected w = true ->
  serves remote w 0 items (VNum n) ->
  n <> 1000 ->
  getAllCustomers remote fuel w
  = Some (Return items, after_calls w [query_request w first_query])
  /\ sent (after_calls w [query_request w first_query])
     = (sent w ++ [query_request w first_query])%list.
Proof.
  intros Hc Hs Hn. split; [|reflexivity].
  rewrite (getAllCustomers_first remote fuel w items (VNum n) Hc Hs), parseInt_number.
  cbn [strict_eq]. destruct (Z.eqb_spec n 1000); [contradiction | reflexivity].
Qed.

Lemma getAllCustomers_single_page_witness :
  getAllCustomers (script [] empty_array_result) 0 sample_world
  = Some (Return [], after_calls sample_world [query_request sample_world first_query]).
Proof.
  apply (getAllCustomers_single_page (script [] empty_array_result) sample_world [] 0 0).
  - reflexivity.
  - reflexivity.
  - discriminate.
Defined.
